(** * Low-float screener: a shallow embedding of [low_float_robinhood.py]

    The script downloads two symbol directories, asks yfinance for the float
    of every symbol through a thread pool, keeps the symbols whose float is
    at most a cutoff, optionally keeps only those Robinhood lists, sorts what
    is left and writes it to a CSV file.

    Everything outside the script (the HTTP server answers, what yfinance
    returns, the builtin [float()] applied to a string, the output file and
    the console) is gathered in a record [env]; the functions of the script
    are functions of that record.  Python exceptions are values of a sum type, and the only
    nondeterminism of the script, the order in which the futures of a thread
    pool complete, is an explicit schedule. *)

From Stdlib Require Import ZArith String Ascii List Permutation Sorted.
From Stdlib Require Import SpecFloat.
From stdpp Require Import gmap strings list sorting.

#[local] Set Warnings "-register-all,-clear-no-such-hyp".
#[local] Open Scope string_scope.
#[local] Open Scope Z_scope.
#[local] Open Scope list_scope.

(** ** Python values, exceptions and the builtins the script calls *)

Module Py.

(** The subclasses of [Exception] that the calls of the script can raise.
    Every handler of the script is [except Exception], so all of them are
    caught alike. *)
Inductive exn : Type :=
  | ValueError
  | OverflowError
  | AttributeError
  | KeyError
  | HTTPError
  | ConnectionError
  | OSError
  | TypeError
  | UnicodeEncodeError.

Inductive result (A : Type) : Type :=
  | Ok (a : A)
  | Raise (e : exn).
Arguments Ok {A} a.
Arguments Raise {A} e.

Definition bind {A B} (m : result A) (f : A -> result B) : result B :=
  match m with
  | Ok a => f a
  | Raise e => Raise e
  end.

(** [try: m except Exception: h] *)
Definition try_except {A} (m : result A) (h : A) : A :=
  match m with
  | Ok a => a
  | Raise _ => h
  end.

(** A Python [float] is an IEEE 754 datum; a [str] is a sequence of code
    points, here those below 256. *)
Inductive value : Type :=
  | PyNone
  | PyBool (b : bool)
  | PyInt (z : Z)
  | PyFloat (f : spec_float)
  | PyStr (s : string)
  | PyList (l : list value)
  | PyDict (d : gmap string value).

(** [bool(v)] *)
Definition truthy (v : value) : bool :=
  match v with
  | PyNone => false
  | PyBool b => b
  | PyInt z => negb (z =? 0)
  | PyFloat (S754_zero _) => false
  | PyFloat _ => true
  | PyStr s => negb (String.eqb s "")
  | PyList l => match l with [] => false | _ :: _ => true end
  | PyDict d => negb (bool_decide (d = ∅))
  end.

(** [isinstance(v, (int, float))]; [bool] is a subclass of [int]. *)
Definition is_int_or_float (v : value) : bool :=
  match v with
  | PyBool _ | PyInt _ | PyFloat _ => true
  | _ => false
  end.

(** [v > 0] for a number [v]. *)
Definition gt_zero (v : value) : bool :=
  match v with
  | PyBool b => b
  | PyInt z => 0 <? z
  | PyFloat (S754_finite false _ _) => true
  | PyFloat (S754_infinity false) => true
  | _ => false
  end.

(** [int(f)] for a float: truncation towards zero. *)
Definition int_of_float (f : spec_float) : result Z :=
  match f with
  | S754_zero _ => Ok 0
  | S754_infinity _ => Raise OverflowError
  | S754_nan => Raise ValueError
  | S754_finite s m e =>
      let a := if 0 <=? e then Z.pos m * 2 ^ e else Z.pos m / 2 ^ (- e) in
      Ok (if s then - a else a)
  end.

(** [int(v)] for a number [v]. *)
Definition int (v : value) : result Z :=
  match v with
  | PyBool b => Ok (if b then 1 else 0)
  | PyInt z => Ok z
  | PyFloat f => int_of_float f
  | _ => Raise ValueError
  end.

(** [d.get(k)] on a dict. *)
Definition get (d : gmap string value) (k : string) : value :=
  default PyNone (d !! k).

(** Looking up the attribute [get]: only a dict has it. *)
Definition as_dict (v : value) : result (gmap string value) :=
  match v with
  | PyDict d => Ok d
  | _ => Raise AttributeError
  end.

(** *** Strings *)

Definition code (c : ascii) : N := N_of_ascii c.

(** The line boundaries of [str.splitlines] below 256, apart from the
    carriage return, which may be followed by a line feed. *)
Definition is_linebreak (c : ascii) : bool :=
  let n := code c in
  ((10 <=? n) && (n <=? 12) || (28 <=? n) && (n <=? 30) || (n =? 133))%N.

Definition is_cr (c : ascii) : bool := (code c =? 13)%N.
Definition is_lf (c : ascii) : bool := (code c =? 10)%N.

(** [cur] holds the characters of the line being read, last one first. *)
Fixpoint splitlines_from (cur : string) (s : string) : list string :=
  match s with
  | EmptyString =>
      match cur with
      | EmptyString => []
      | _ => [String.rev cur]
      end
  | String c s' =>
      if is_cr c then
        match s' with
        | String c' s'' =>
            if is_lf c' then String.rev cur :: splitlines_from "" s''
            else String.rev cur :: splitlines_from "" s'
        | EmptyString => [String.rev cur]
        end
      else if is_linebreak c then String.rev cur :: splitlines_from "" s'
      else splitlines_from (String c cur) s'
  end.

(** [s.splitlines()] *)
Definition splitlines (s : string) : list string := splitlines_from "" s.

(** [s.split(sep)] for a separator of one character; never empty. *)
Fixpoint split (sep : ascii) (s : string) : list string :=
  match s with
  | EmptyString => [""]
  | String c s' =>
      if Ascii.eqb c sep then "" :: split sep s'
      else
        match split sep s' with
        | h :: t => String c h :: t
        | [] => [String c ""]
        end
  end.

(** [str.isspace] on one character below 256. *)
Definition isspace (c : ascii) : bool :=
  let n := code c in
  ((9 <=? n) && (n <=? 13) || (28 <=? n) && (n <=? 32)
   || (n =? 133) || (n =? 160))%N.

Fixpoint lstrip (s : string) : string :=
  match s with
  | String c s' => if isspace c then lstrip s' else s
  | EmptyString => ""
  end.

(** [s.strip()] *)
Definition strip (s : string) : string :=
  String.rev (lstrip (String.rev (lstrip s))).

(** [s.startswith(p)] *)
Definition startswith (s p : string) : bool := String.prefix p s.

(** [s.replace(c, "")] for one character [c]. *)
Fixpoint remove_char (c : ascii) (s : string) : string :=
  match s with
  | EmptyString => ""
  | String c' s' =>
      if Ascii.eqb c' c then remove_char c s' else String c' (remove_char c s')
  end.

(** [sorted] on strings compares them code point by code point. *)
Definition str_le (s1 s2 : string) : Prop := String.leb s1 s2 = true.
Definition str_lt (s1 s2 : string) : Prop := String.ltb s1 s2 = true.

#[export] Instance str_le_dec s1 s2 : Decision (str_le s1 s2).
Proof. unfold str_le. apply _. Defined.

End Py.

Export Py.

(** The error monad in stdpp's notation: [x ← m; k]. *)
#[export] Instance result_ret : MRet result := @Ok.
#[export] Instance result_bind : MBind result := fun A B f m => Py.bind m f.

(** ** The world outside the script *)

(** What [requests.get] returns: the status code, the body as text and the
    outcome of parsing the body as JSON ([r.json()]). *)
Record response : Type := {
  status_code : Z;
  text : string;
  json : result value
}.

(** The dict that [fetch_float] returns. Its ["float"] entry is [None] or an
    [int]; the three other entries are whatever yfinance holds. *)
Record enrichment : Type := {
  symbol : string;
  float : option Z;
  shortName : value;
  exchange : value;
  marketCap : value
}.

Record env : Type := {
  (** [requests.get(url, timeout=...)] *)
  http_get : string -> result response;
  (** [yf.Ticker(symbol).info] *)
  yf_info : string -> result value;
  (** the builtin [float(s)] on a string *)
  float_of_str : string -> result spec_float;
  (** [open(path, "w", newline="")]: the file is created or emptied *)
  file_open : string -> result unit;
  (** [writer.writerow(fields)] on the file opened at the path *)
  file_writerow : string -> list value -> result unit;
  (** [print] of the line that the f-string makes of a symbol, a float, an
      exchange and a name; it raises when the console cannot take the line
      (a name it cannot encode, a closed pipe) *)
  print_row : string -> Z -> value -> value -> result unit
}.

Definition NASDAQ_LISTED_URL : string :=
  "https://ftp.nasdaqtrader.com/dynamic/SymDir/nasdaqlisted.txt".
Definition OTHER_LISTED_URL : string :=
  "https://ftp.nasdaqtrader.com/dynamic/SymDir/otherlisted.txt".
(** [ROBINHOOD_INSTRUMENTS.format(symbol=symbol)] *)
Definition ROBINHOOD_INSTRUMENTS (symbol : string) : string :=
  "https://api.robinhood.com/instruments/?symbol=" +:+ symbol.

(** [r.raise_for_status()]: requests raises for the codes 400 to 599. *)
Definition raise_for_status (r : response) : result unit :=
  if (400 <=? status_code r) && (status_code r <? 600) then Raise HTTPError
  else Ok tt.

(** ** download_symbol_list *)

(** The inner loop, [for line in lines[1:]], over the lines that remain. *)
Fixpoint scan_lines (lines : list string) (symbols : gset string) : gset string :=
  match lines with
  | [] => symbols
  | line :: rest =>
      if String.eqb line "" || startswith line "File Creation" then symbols
      else
        match split "|" line with
        | [] => scan_lines rest symbols
        | part0 :: _ =>
            let sym := strip part0 in
            if negb (String.eqb sym "") && negb (String.eqb sym "Symbol")
            then scan_lines rest ({[ sym ]} ∪ symbols)
            else scan_lines rest symbols
        end
  end.

(** The outer loop, over the urls that remain. *)
Fixpoint download_from (e : env) (urls : list string) (symbols : gset string)
  : result (gset string) :=
  match urls with
  | [] => Ok symbols
  | url :: urls' =>
      r ← http_get e url;
      _ ← raise_for_status r;
      download_from e urls' (scan_lines (tail (splitlines (text r))) symbols)
  end.

(** [sorted(symbols)] on a set of strings. *)
Definition sorted (symbols : gset string) : list string :=
  merge_sort str_le (elements symbols).

Definition download_symbol_list (e : env) : result (list string) :=
  symbols ← download_from e [NASDAQ_LISTED_URL; OTHER_LISTED_URL] ∅;
  Ok (sorted symbols).

(** ** fetch_float *)

Definition numeric_keys : list string :=
  ["floatShares"; "sharesFloat"; "float"; "sharesOutstanding"].
Definition string_keys : list string := ["floatShares"; "sharesOutstanding"].

(** The first loop over the keys that remain; [int(v)] may raise. *)
Fixpoint scan_numeric (info : gmap string value) (keys : list string)
  : result (option Z) :=
  match keys with
  | [] => Ok None
  | k :: keys' =>
      let v := get info k in
      if is_int_or_float v && gt_zero v then
        float_shares ← int v; Ok (Some float_shares)
      else scan_numeric info keys'
  end.

(** The second loop; what its [try] raises is passed over. *)
Fixpoint scan_strings (e : env) (info : gmap string value) (keys : list string)
  : option Z :=
  match keys with
  | [] => None
  | k :: keys' =>
      match get info k with
      | PyStr s =>
          match (f ← float_of_str e (remove_char "," s); int_of_float f) with
          | Ok fv => if 0 <? fv then Some fv else scan_strings e info keys'
          | Raise _ => scan_strings e info keys'
          end
      | _ => scan_strings e info keys'
      end
  end.

(** The float extraction as a whole: the two loops. *)
Definition extract_float (e : env) (info : gmap string value) : result (option Z) :=
  float_shares ← scan_numeric info numeric_keys;
  match float_shares with
  | None => Ok (scan_strings e info string_keys)
  | Some _ => Ok float_shares
  end.

(** The body of the [try]. *)
Definition fetch_float_try (e : env) (sym : string) : result enrichment :=
  t_info ← yf_info e sym;
  info ← as_dict (if truthy t_info then t_info else PyDict ∅);
  float_shares ← extract_float e info;
  Ok {| symbol := sym;
        float := float_shares;
        shortName := get info "shortName";
        exchange := get info "exchange";
        marketCap := get info "marketCap" |}.

(** The dict of the [except] branch. *)
Definition no_data (sym : string) : enrichment :=
  {| symbol := sym; float := None;
     shortName := PyNone; exchange := PyNone; marketCap := PyNone |}.

Definition fetch_float (e : env) (sym : string) : enrichment :=
  try_except (fetch_float_try e sym) (no_data sym).

(** ** robinhood_has_symbol *)

Definition robinhood_has_symbol_try (e : env) (sym : string) : result bool :=
  r ← http_get e (ROBINHOOD_INSTRUMENTS sym);
  if negb (status_code r =? 200) then Ok false
  else
    data ← json r;
    d ← as_dict data;
    Ok (truthy (get d "results")).

Definition robinhood_has_symbol (e : env) (sym : string) : bool :=
  try_except (robinhood_has_symbol_try e sym) false.

(** ** The thread pool *)

(** [ThreadPoolExecutor] with [as_completed]. A future is named by the
    position of its item among the submitted ones. The worker threads take the
    pending futures in submission order while fewer than [max_workers] are
    running; which running future completes next is not up to the script: it
    is read from a schedule. *)
Module Pool.

Record state : Type := {
  pending : list nat;
  running : list nat;
  started : list nat;
  completed : list nat
}.

Definition submit_all (n : nat) : state :=
  {| pending := seq 0 n; running := []; started := []; completed := [] |}.

(** Idle workers pick up pending futures. *)
Definition refill (max_workers : nat) (p : state) : state :=
  let k := (max_workers - length (running p))%nat in
  {| pending := drop k (pending p);
     running := running p ++ take k (pending p);
     started := started p ++ take k (pending p);
     completed := completed p |}.

(** The running future at position [i] (modulo the number of running ones)
    completes. *)
Definition complete (i : nat) (p : state) : state :=
  let j := Nat.modulo i (length (running p)) in
  {| pending := pending p;
     running := delete j (running p);
     started := started p;
     completed := completed p ++ option_list (running p !! j) |}.

Fixpoint drain (fuel : nat) (max_workers : nat) (schedule : list nat)
  (p : state) : state :=
  match fuel with
  | O => p
  | S fuel' =>
      let p' := refill max_workers p in
      match running p' with
      | [] => p'
      | _ :: _ =>
          drain fuel' max_workers (tail schedule) (complete (hd O schedule) p')
      end
  end.

(** The pool after [n] futures were submitted and [as_completed] was
    iterated to its end. *)
Definition as_completed (max_workers n : nat) (schedule : list nat) : state :=
  drain n max_workers schedule (submit_all n).

End Pool.

(** ** main *)

Record args : Type := {
  cutoff : Z;
  robinhood : bool;
  output : string;
  workers : Z;
  limit : Z
}.

(** What a run does that the claims speak of: the calls of the two workers,
    the output file opened (and so emptied), the output file complete with
    its rows, and a report row printed. *)
Inductive event : Type :=
  | Enrich (sym : string)
  | Eligibility (sym : string)
  | CsvOpened (path : string)
  | CsvWritten (path : string) (rows : list enrichment)
  | Printed (row : enrichment).

(** A computation that leaves a trace and returns or raises. *)
Record prog (A : Type) : Type := Prog {
  trace : list event;
  outcome : result A
}.
Arguments Prog {A} trace outcome.
Arguments trace {A} p.
Arguments outcome {A} p.

Definition lift {A} (r : result A) : prog A := Prog [] r.
Definition emit (evs : list event) : prog unit := Prog evs (Ok tt).

#[export] Instance prog_ret : MRet prog := fun A a => Prog [] (Ok a).
#[export] Instance prog_bind : MBind prog := fun A B f m =>
  match outcome m with
  | Ok a => Prog (trace m ++ trace (f a)) (outcome (f a))
  | Raise x => Prog (trace m) (Raise x)
  end.

(** [with ThreadPoolExecutor(max_workers=...) as ex:] followed by the dict
    comprehension that submits one future per item and by the iteration of
    [as_completed]. The constructor raises [ValueError] unless
    [max_workers] is positive. The result pairs each future, in completion
    order, with what its [result()] gives. *)
Definition run_batch {A B} (call : A -> event) (max_workers : Z)
  (schedule : list nat) (worker : A -> result B) (items : list A)
  : prog (list (nat * result B)) :=
  if max_workers <=? 0 then lift (Raise ValueError)
  else
    let p := Pool.as_completed (Z.to_nat max_workers) (length items) schedule in
    Prog (call <$> omap (fun f => items !! f) (Pool.started p))
         (Ok (omap (fun f => x ← items !! f; Some (f, worker x)) (Pool.completed p))).

(** [for f in as_completed(futures): res = f.result(); results.append(res)] *)
Fixpoint collect {B} (done : list (nat * result B)) : result (list B) :=
  match done with
  | [] => Ok []
  | (_, res) :: done' =>
      x ← res; results ← collect done'; Ok (x :: results)
  end.

(** The loop that filters by float value. *)
Fixpoint filter_by_float (cutoff : Z) (results : list enrichment) : list enrichment :=
  match results with
  | [] => []
  | r :: results' =>
      match float r with
      | None => filter_by_float cutoff results'
      | Some fval =>
          if fval <=? cutoff then r :: filter_by_float cutoff results'
          else filter_by_float cutoff results'
      end
  end.

(** The loop over the completed Robinhood futures; [futures[f]] is the record
    the future was submitted for. *)
Fixpoint keep_supported (futures : list enrichment)
  (done : list (nat * result bool)) : result (list enrichment) :=
  match done with
  | [] => Ok []
  | (f, res) :: done' =>
      match futures !! f with
      | None => Raise KeyError
      | Some r =>
          let ok := try_except res false in
          rh_filtered ← keep_supported futures done';
          Ok (if ok then r :: rh_filtered else rh_filtered)
      end
  end.

(** The sort key, [x["float"] or float("inf")]: an [int] or the float
    infinity. *)
Inductive sort_key : Type :=
  | KInt (z : Z)
  | KInf.

Definition key (x : enrichment) : sort_key :=
  match float x with
  | None => KInf
  | Some z => if z =? 0 then KInf else KInt z
  end.

(** [a < b] on keys. *)
Definition key_lt (a b : sort_key) : bool :=
  match a, b with
  | KInt x, KInt y => x <? y
  | KInt _, KInf => true
  | KInf, _ => false
  end.

(** [list.sort(key=...)] is a stable sort that compares keys with [<]; here
    by insertion, the elements of the list taken last to first. *)
Fixpoint insert_by_key (x : enrichment) (l : list enrichment) : list enrichment :=
  match l with
  | [] => [x]
  | y :: l' =>
      if key_lt (key y) (key x) then y :: insert_by_key x l' else x :: y :: l'
  end.

Definition sort_by_float (l : list enrichment) : list enrichment :=
  foldr insert_by_key [] l.

(** The header row of the CSV file. *)
Definition CSV_HEADER : list value :=
  [PyStr "symbol"; PyStr "float"; PyStr "shortName"; PyStr "exchange";
   PyStr "marketCap"].

(** The fields of the row written for a record. *)
Definition csv_row (r : enrichment) : list value :=
  [PyStr (symbol r);
   match float r with Some fval => PyInt fval | None => PyNone end;
   shortName r; exchange r; marketCap r].

(** [for r in filtered: writer.writerow([...])] over the rows that remain. *)
Fixpoint write_rows (e : env) (path : string) (rows : list enrichment)
  : result unit :=
  match rows with
  | [] => Ok tt
  | r :: rows' =>
      _ ← file_writerow e path (csv_row r); write_rows e path rows'
  end.

(** The [with open(...)] block as a whole: the file is opened, then the
    header and the rows are written one by one. A failure after the open
    leaves the file emptied or with some of its rows. *)
Definition csv_write (e : env) (path : string) (rows : list enrichment)
  : result unit :=
  _ ← file_open e path;
  _ ← file_writerow e path CSV_HEADER;
  write_rows e path rows.

(** The [print] of one report row. The format [{r['float']:,}] needs a
    number. *)
Definition print_report_row (e : env) (r : enrichment) : result unit :=
  match float r with
  | None => Raise TypeError
  | Some fval => print_row e (symbol r) fval (exchange r) (shortName r)
  end.

(** [for r in filtered[:100]: print(...)] over the rows that remain. *)
Fixpoint print_rows (e : env) (rows : list enrichment) : prog unit :=
  match rows with
  | [] => mret tt
  | r :: rows' =>
      _ ← lift (print_report_row e r);
      _ ← emit [Printed r];
      print_rows e rows'
  end.

(** [schedule1] and [schedule2] are the completion orders of the two pools.
    The prints of progress messages, of the count line and of the closing
    line carry no looked-up data and are not steps of the model; the print
    of each report row is. *)
Definition main (e : env) (a : args) (schedule1 schedule2 : list nat)
  : prog (list enrichment) :=
  symbols ← lift (download_symbol_list e);
  let symbols :=
    if 0 <? limit a then take (Z.to_nat (limit a)) symbols else symbols in
  done1 ← run_batch Enrich (workers a) schedule1
            (fun sym => Ok (fetch_float e sym)) symbols;
  results ← lift (collect done1);
  let filtered := filter_by_float (cutoff a) results in
  filtered ←
    (if robinhood a then
       done2 ← run_batch Eligibility (Z.max 4 (workers a)) schedule2
                 (fun sym => Ok (robinhood_has_symbol e sym))
                 (symbol <$> filtered);
       lift (keep_supported filtered done2)
     else mret filtered);
  let filtered := sort_by_float filtered in
  _ ← lift (file_open e (output a));
  _ ← emit [CsvOpened (output a)];
  _ ← lift (_ ← file_writerow e (output a) CSV_HEADER;
            write_rows e (output a) filtered);
  _ ← emit [CsvWritten (output a) filtered];
  _ ← print_rows e (take 100 filtered);
  mret filtered.

(** ** A small world to run the script in *)

Module Demo.

Definition nl : string := String (ascii_of_nat 10) "".

Definition nasdaq_txt : string :=
  "Symbol|Security Name|Market Category" +:+ nl +:+
  "CCC|Gamma Corp|Q" +:+ nl +:+
  " AAA |Alpha Inc|Q" +:+ nl +:+
  "File Creation Time: 1103202619:24|||" +:+ nl.

Definition other_txt : string :=
  "ACT Symbol|Security Name|Exchange" +:+ nl +:+
  "BBB|Beta Ltd|N" +:+ nl +:+
  "AAA|Alpha Inc|N" +:+ nl +:+
  "Symbol|echo|N" +:+ nl +:+
  nl +:+
  "ZZZ|after the blank line|N" +:+ nl.

Definition page (body : string) : response :=
  {| status_code := 200; text := body; json := Raise ValueError |}.

Definition api (v : value) : response :=
  {| status_code := 200; text := ""; json := Ok v |}.

(** One half, as a binary64 float: 2^52 * 2^-53. *)
Definition half : spec_float := S754_finite false 4503599627370496 (-53).

Definition aaa_info : gmap string value :=
  <["floatShares" := PyInt 5000000]> (<["shortName" := PyStr "Alpha Inc"]> ∅).

Definition info_of (sym : string) : result value :=
  if String.eqb sym "AAA" then Ok (PyDict aaa_info)
  else if String.eqb sym "BBB" then
    Ok (PyDict (<["sharesOutstanding" := PyInt 50000000]> ∅))
  else Raise ConnectionError.

Definition get_of (url : string) : result response :=
  if String.eqb url NASDAQ_LISTED_URL then Ok (page nasdaq_txt)
  else if String.eqb url OTHER_LISTED_URL then Ok (page other_txt)
  else if String.eqb url (ROBINHOOD_INSTRUMENTS "BBB") then
    Ok (api (PyDict (<["results" := PyList [PyDict ∅]]> ∅)))
  else if String.eqb url (ROBINHOOD_INSTRUMENTS "AAA") then
    Ok (api (PyDict (<["results" := PyList []]> ∅)))
  else Raise ConnectionError.

(** A stand-in for [float()] that rejects every string. *)
Definition no_float (s : string) : result spec_float := Raise ValueError.

Definition world : env :=
  {| http_get := get_of;
     yf_info := info_of;
     float_of_str := no_float;
     file_open := fun _ => Ok tt;
     file_writerow := fun _ _ => Ok tt;
     print_row := fun _ _ _ _ => Ok tt |}.

Definition run_args (cut : Z) (rh : bool) : args :=
  {| cutoff := cut; robinhood := rh; output := "low_float.csv";
     workers := 8; limit := 0 |}.

Definition aaa : enrichment :=
  {| symbol := "AAA"; float := Some 5000000; shortName := PyStr "Alpha Inc";
     exchange := PyNone; marketCap := PyNone |}.

Definition bbb : enrichment :=
  {| symbol := "BBB"; float := Some 50000000; shortName := PyNone;
     exchange := PyNone; marketCap := PyNone |}.



(** A world in which yfinance reports half a share as the float of AAA,
    and five million shares for BBB. *)
Definition penny_info_of (sym : string) : result value :=
  if String.eqb sym "AAA" then Ok (PyDict (<["floatShares" := PyFloat half]> ∅))
  else if String.eqb sym "BBB" then
    Ok (PyDict (<["floatShares" := PyInt 5000000]> ∅))
  else Raise ConnectionError.

Definition penny_world : env :=
  {| http_get := get_of;
     yf_info := penny_info_of;
     float_of_str := no_float;
     file_open := fun _ => Ok tt;
     file_writerow := fun _ _ => Ok tt;
     print_row := fun _ _ _ _ => Ok tt |}.

Definition penny_aaa : enrichment :=
  {| symbol := "AAA"; float := Some 0; shortName := PyNone;
     exchange := PyNone; marketCap := PyNone |}.

Definition penny_bbb : enrichment :=
  {| symbol := "BBB"; float := Some 5000000; shortName := PyNone;
     exchange := PyNone; marketCap := PyNone |}.

(** A world in which Robinhood answers 200 with a body whose ["results"] is
    the number 1. *)
Definition count_body : gmap string value := <["results" := PyInt 1]> ∅.

Definition count_world : env :=
  {| http_get := fun _ => Ok (api (PyDict count_body));
     yf_info := info_of;
     float_of_str := no_float;
     file_open := fun _ => Ok tt;
     file_writerow := fun _ _ => Ok tt;
     print_row := fun _ _ _ _ => Ok tt |}.

End Demo.

(** ** Vocabulary of the statements *)

(** The futures of a batch, each paired with the result of its worker call,
    in submission order. *)
Definition submitted {A B} (worker : A -> result B) (items : list A)
  : list (nat * result B) :=
  imap (fun f x => (f, worker x)) items.

(** A record passes the float filter. *)
Definition passes (cutoff : Z) (r : enrichment) : bool :=
  match float r with
  | None => false
  | Some fval => fval <=? cutoff
  end.

(** [a <= b] on sort keys: not [b < a]. *)
Definition key_le (a b : sort_key) : Prop := key_lt b a = false.

(** The value of a future that returned. *)
Definition returned {B} (res : result B) : option B :=
  match res with
  | Ok b => Some b
  | Raise _ => None
  end.

(** The record a completed Robinhood future stands for, if its check said
    yes. *)
Definition supported_row (futures : list enrichment) (p : nat * result bool)
  : option enrichment :=
  r ← futures !! p.1; if try_except p.2 false then Some r else None.

(** [symbols[:limit]] when the limit is positive, else all of them. *)
Definition limited (a : args) (symbols : list string) : list string :=
  if 0 <? limit a then take (Z.to_nat (limit a)) symbols else symbols.

(** The rows kept by the optional Robinhood stage. *)
Definition eligible (e : env) (a : args) (filtered : list enrichment)
  : list enrichment :=
  if robinhood a
  then filter (fun r => robinhood_has_symbol e (symbol r) = true) filtered
  else filtered.

(** The end of [main], from the open of the output file on, for the sorted
    rows. *)
Definition report_stage (e : env) (a : args) (rows : list enrichment)
  : prog (list enrichment) :=
  _ ← lift (file_open e (output a));
  _ ← emit [CsvOpened (output a)];
  _ ← lift (_ ← file_writerow e (output a) CSV_HEADER;
            write_rows e (output a) rows);
  _ ← emit [CsvWritten (output a) rows];
  _ ← print_rows e (take 100 rows);
  mret rows.

(** The condition on a report row that the float filter enforces. *)
Definition within_cutoff (cutoff : Z) (r : enrichment) : Prop :=
  ∃ fval, float r = Some fval ∧ fval ≤ cutoff.

(** A symbol directory that cannot be had: the request raises, or the
    status is one that [raise_for_status] rejects. *)
Definition unavailable (e : env) (url : string) : Prop :=
  match http_get e url with
  | Raise _ => True
  | Ok r => 400 ≤ status_code r < 600
  end.

(** *** The symbol directories, in the words of the specification *)

(** A blank line, or a line that begins with the footer marker. *)
Definition ends_table (line : string) : bool :=
  String.eqb line "" || startswith line "File Creation".

(** The lines up to the first one that satisfies [stop], that one left
    out. *)
Fixpoint take_until (stop : string -> bool) (lines : list string) : list string :=
  match lines with
  | [] => []
  | line :: rest => if stop line then [] else line :: take_until stop rest
  end.

(** The first pipe-delimited field of a line, trimmed of whitespace. *)
Definition spec_candidate (line : string) : string :=
  strip (hd "" (split "|" line)).

(** The tickers of one resource: its first line skipped, its lines read up
    to the end of the table, and of each line the candidate, unless it is
    empty or the header echo. *)
Definition spec_tickers (body : string) : list string :=
  filter (fun sym => sym ≠ "" ∧ sym ≠ "Symbol")
    (spec_candidate <$> take_until ends_table (tail (splitlines body))).

(** *** The float extraction, in the words of the specification *)

(** A value that is numeric and strictly greater than zero. *)
Definition accepted_number (v : value) : bool :=
  is_int_or_float v && gt_zero v.

(** The first value, in the order of the keys, that is such a number. *)
Definition spec_first_number (info : gmap string value) (keys : list string)
  : option value :=
  head (filter (fun v => accepted_number v = true) (get info <$> keys)).

(** A string value parsed again, its thousands separators stripped; it
    counts if the parse succeeds and gives a positive integer. *)
Definition spec_reparsed (e : env) (v : value) : option Z :=
  match v with
  | PyStr s =>
      match (f ← float_of_str e (remove_char "," s); int_of_float f) with
      | Ok fv => if 0 <? fv then Some fv else None
      | Raise _ => None
      end
  | _ => None
  end.

(** The first string value, in the order of the keys, that counts. *)
Definition spec_first_string (e : env) (info : gmap string value)
  (keys : list string) : option Z :=
  head (omap (spec_reparsed e) (get info <$> keys)).

(** The share count: the first accepted number of the primary keys, made an
    [int]; only if there is none, the first string of the secondary keys
    that counts. *)
Definition spec_share_count (e : env) (info : gmap string value)
  : result (option Z) :=
  match spec_first_number info numeric_keys with
  | Some v => float_shares ← int v; Ok (Some float_shares)
  | None => Ok (spec_first_string e info string_keys)
  end.

(** *** The eligibility check, in the words of the specification *)

(** A collection with something in it: a list, a dict or a string. *)
Definition nonempty_collection (v : value) : Prop :=
  match v with
  | PyList l => l ≠ []
  | PyDict d => d ≠ ∅
  | PyStr s => s ≠ ""
  | _ => False
  end.

(** The response has a success status code and its parsed body contains a
    non-empty ["results"] collection. *)
Definition spec_eligible (e : env) (sym : string) : Prop :=
  ∃ r body results,
    http_get e (ROBINHOOD_INSTRUMENTS sym) = Ok r
    ∧ 200 ≤ status_code r < 300
    ∧ json r = Ok (PyDict body)
    ∧ body !! "results" = Some results
    ∧ nonempty_collection results.

(** *** The order of the report *)

(** Ascending by float, every float being present. *)
Definition float_le (a b : enrichment) : Prop :=
  match float a, float b with
  | Some x, Some y => x ≤ y
  | _, _ => False
  end.

Definition ascending_by_float (l : list enrichment) : Prop :=
  StronglySorted float_le l.

(** The rows of a given float. *)
Definition has_float (f : option Z) (r : enrichment) : bool :=
  bool_decide (float r = f).

(** *** Reading a trace *)

(** The symbols [fetch_float] was called for, in call order. *)
Definition enrich_calls (tr : list event) : list string :=
  omap (fun ev => match ev with Enrich sym => Some sym | _ => None end) tr.

(** The symbols [robinhood_has_symbol] was called for, in call order. *)
Definition eligibility_calls (tr : list event) : list string :=
  omap (fun ev => match ev with Eligibility sym => Some sym | _ => None end) tr.


(** The files written, each with its rows. *)
Definition csv_writes (tr : list event) : list (string * list enrichment) :=
  omap (fun ev => match ev with
                  | CsvWritten path rows => Some (path, rows)
                  | _ => None
                  end) tr.

(** The symbol is one that a run with these arguments reports: its float
    passes the filter and, if the Robinhood filter is on, so does its
    check. *)
Definition reported (e : env) (a : args) (sym : string) : bool :=
  passes (cutoff a) (fetch_float e sym)
  && (negb (robinhood a) || robinhood_has_symbol e sym).

(** The characters of a string. *)
Definition chars (s : string) : list ascii := list_ascii_of_string s.

(** A ticker as [download_symbol_list] hands it out: not empty, not the
    header echo, free of pipes and line boundaries, and with no whitespace
    at either end. *)
Definition clean_ticker (sym : string) : Prop :=
  sym ≠ "" ∧ sym ≠ "Symbol"
  ∧ Forall (fun c => Ascii.eqb c "|" = false
                     ∧ is_linebreak c = false ∧ is_cr c = false) (chars sym)
  ∧ (∀ c, head (chars sym) = Some c → isspace c = false)
  ∧ (∀ c, last (chars sym) = Some c → isspace c = false).

(** Worlds for the examples of the later sections. *)
Module Scenario.



Definition run_with (cut : Z) (rh : bool) (pool lim : Z) : args :=
  {| cutoff := cut; robinhood := rh; output := "low_float.csv";
     workers := pool; limit := lim |}.




End Scenario.

(** *** The fatal failures, in the words of the specification *)



(** ** The thread pool runs every future once *)

Section pool_facts.
Import Pool.

Lemma refill_running_nil max_workers p :
  (1 ≤ max_workers)%nat →
  running (refill max_workers p) = [] →
  running p = [] ∧ pending p = [].
Proof.
  intros Hw Hnil. simpl in Hnil.
  apply app_eq_nil in Hnil as [Hr Ht]. split; [done|].
  rewrite Hr in Ht. simpl in Ht.
  destruct (pending p) as [|x l]; [done|].
  destruct max_workers; [lia|]. done.
Qed.

(** Never more futures run than the pool has workers. *)
Lemma refill_bounded max_workers p :
  (length (running p) ≤ max_workers)%nat →
  (length (running (refill max_workers p)) ≤ max_workers)%nat.
Proof.
  intros Hb. simpl. rewrite length_app, length_take. lia.
Qed.

Lemma complete_bounded max_workers i p :
  (length (running p) ≤ max_workers)%nat →
  (length (running (complete i p)) ≤ max_workers)%nat.
Proof.
  intros Hb. simpl. rewrite delete_take_drop, length_app, length_take, length_drop.
  lia.
Qed.

Lemma refill_spec max_workers p :
  ∃ k, pending (refill max_workers p) = drop k (pending p)
     ∧ running (refill max_workers p) = running p ++ take k (pending p)
     ∧ started (refill max_workers p) = started p ++ take k (pending p)
     ∧ completed (refill max_workers p) = completed p.
Proof. by exists (max_workers - length (running p))%nat. Qed.

Lemma complete_spec i p :
  running p ≠ [] →
  ∃ j x, running p !! j = Some x
       ∧ pending (complete i p) = pending p
       ∧ running (complete i p) = delete j (running p)
       ∧ started (complete i p) = started p
       ∧ completed (complete i p) = completed p ++ [x].
Proof.
  intros Hne.
  assert (Hj : (Nat.modulo i (length (running p)) < length (running p))%nat).
  { apply Nat.mod_upper_bound. destruct (running p); simpl; [done|lia]. }
  destruct (lookup_lt_is_Some_2 _ _ Hj) as [x Hx].
  exists (Nat.modulo i (length (running p))), x.
  unfold complete; simpl. by rewrite Hx.
Qed.

Lemma drain_step fuel max_workers schedule p :
  drain (S fuel) max_workers schedule p =
    match running (refill max_workers p) with
    | [] => refill max_workers p
    | _ :: _ =>
        drain fuel max_workers (tail schedule)
          (complete (hd O schedule) (refill max_workers p))
    end.
Proof. reflexivity. Qed.

Lemma drain_spec fuel max_workers schedule p :
  (1 ≤ max_workers)%nat →
  (length (pending p) + length (running p) ≤ fuel)%nat →
  pending (drain fuel max_workers schedule p) = [] ∧
  running (drain fuel max_workers schedule p) = [] ∧
  started (drain fuel max_workers schedule p) = started p ++ pending p ∧
  completed (drain fuel max_workers schedule p)
    ≡ₚ completed p ++ running p ++ pending p.
Proof.
  intros Hw. revert schedule p.
  induction fuel as [|fuel IH]; intros schedule p Hfuel.
  - simpl. destruct (pending p), (running p); simpl in *; try lia.
    by rewrite !app_nil_r.
  - rewrite drain_step.
    destruct (refill_spec max_workers p) as (k & Hp & Hr & Hs & Hc).
    destruct (running (refill max_workers p)) as [|r rs] eqn:Hrun.
    + destruct (refill_running_nil max_workers p Hw Hrun) as [Hr0 Hp0].
      rewrite Hp, Hs, Hc, Hr0, Hp0, drop_nil, take_nil.
      by rewrite !app_nil_r.
    + destruct (complete_spec (hd O schedule) (refill max_workers p))
        as (j & x & Hx & Hp' & Hr' & Hs' & Hc'); [by rewrite Hrun|].
      rewrite Hrun, Hr in Hx, Hr'.
      assert (Hsplit : (length (pending p) =
                length (take k (pending p)) + length (drop k (pending p)))%nat)
        by (by rewrite <- length_app, take_drop).
      destruct (IH (tail schedule)
                  (complete (hd O schedule) (refill max_workers p)))
        as (Hq1 & Hq2 & Hq3 & Hq4).
      { rewrite Hp', Hr', Hp, length_delete by (by eexists).
        apply lookup_lt_Some in Hx. rewrite length_app in *. lia. }
      repeat split; [done|done| |].
      * rewrite Hq3, Hs', Hp', Hs, Hp. by rewrite <- app_assoc, take_drop.
      * rewrite Hq4, Hc', Hr', Hp', Hc, Hp.
        rewrite <- !app_assoc. apply Permutation_app_head. simpl.
        rewrite app_comm_cons, <- (delete_Permutation _ _ _ Hx).
        by rewrite <- app_assoc, take_drop.
Qed.

Lemma as_completed_spec max_workers n schedule :
  (1 ≤ max_workers)%nat →
  started (as_completed max_workers n schedule) = seq 0 n ∧
  completed (as_completed max_workers n schedule) ≡ₚ seq 0 n.
Proof.
  intros Hw.
  destruct (drain_spec n max_workers schedule (submit_all n) Hw)
    as (_ & _ & Hs & Hc).
  { simpl. rewrite length_seq. lia. }
  done.
Qed.

End pool_facts.

Lemma omap_lookup_seq {A} (pre items : list A) :
  omap (fun f => (pre ++ items) !! f) (seq (length pre) (length items)) = items.
Proof.
  revert pre. induction items as [|x items IH]; intros pre; [done|].
  simpl. rewrite list_lookup_middle by done. f_equal.
  specialize (IH (pre ++ [x])). rewrite length_app in IH. simpl in IH.
  rewrite <- app_assoc in IH. simpl in IH.
  by replace (length pre + 1)%nat with (S (length pre)) in IH by lia.
Qed.

Lemma omap_lookup_seq_0 {A} (items : list A) :
  omap (fun f => items !! f) (seq 0 (length items)) = items.
Proof. apply (omap_lookup_seq []). Qed.

Lemma omap_indexed_seq {A B} (g : nat → A → B) (pre items : list A) :
  omap (fun f => x ← (pre ++ items) !! f; Some (g f x))
       (seq (length pre) (length items))
  = imap (fun i x => g (length pre + i)%nat x) items.
Proof.
  revert pre. induction items as [|x items IH]; intros pre; [done|].
  cbn [length seq omap list_omap imap].
  rewrite list_lookup_middle by done. cbn [mbind option_bind].
  rewrite Nat.add_0_r. f_equal.
  specialize (IH (pre ++ [x])). rewrite length_app in IH. cbn [length] in IH.
  rewrite <- app_assoc in IH. cbn [app] in IH.
  replace (length pre + 1)%nat with (S (length pre)) in IH by lia.
  rewrite IH. apply imap_ext. intros i y _. cbn. f_equal. lia.
Qed.

Lemma run_batch_spec {A B} (call : A -> event) (max_workers : Z)
  (schedule : list nat) (worker : A -> result B) (items : list A) :
  1 ≤ max_workers →
  ∃ done,
    run_batch call max_workers schedule worker items
      = Prog (call <$> items) (Ok done)
    ∧ done ≡ₚ submitted worker items.
Proof.
  intros Hw. unfold run_batch.
  destruct (Z.leb_spec max_workers 0) as [|_]; [lia|].
  destruct (as_completed_spec (Z.to_nat max_workers) (length items)
              schedule) as (Hs & Hc); [lia|].
  eexists. split.
  - rewrite Hs, omap_lookup_seq_0. reflexivity.
  - rewrite Hc. unfold submitted. apply reflexive_eq.
    exact (omap_indexed_seq (fun f x => (f, worker x)) [] items).
Qed.

(** ** The trace and error monad *)

Lemma outcome_bind {A B} (m : prog A) (f : A -> prog B) :
  outcome (m ≫= f) =
    match outcome m with
    | Ok a => outcome (f a)
    | Raise x => Raise x
    end.
Proof. unfold mbind, prog_bind. by destruct (outcome m). Qed.

Lemma trace_bind {A B} (m : prog A) (f : A -> prog B) :
  trace (m ≫= f) =
    trace m ++ match outcome m with
               | Ok a => trace (f a)
               | Raise _ => []
               end.
Proof.
  unfold mbind, prog_bind. destruct (outcome m); simpl; [done|].
  by rewrite app_nil_r.
Qed.

(** ** Filtering and sorting *)

Lemma filter_by_float_filter cutoff results :
  filter_by_float cutoff results = filter (fun r => passes cutoff r = true) results.
Proof.
  induction results as [|r results IH]; [done|].
  cbn [filter_by_float]. rewrite filter_cons, IH.
  destruct (decide (passes cutoff r = true)) as [Hp|Hp];
    unfold passes in Hp; destruct (float r) as [fval|]; try done.
  - by rewrite Hp.
  - by apply not_true_is_false in Hp as ->.
Qed.

Lemma elem_of_filter_by_float cutoff results r :
  r ∈ filter_by_float cutoff results ↔
  r ∈ results ∧ ∃ fval, float r = Some fval ∧ fval ≤ cutoff.
Proof.
  rewrite filter_by_float_filter, list_elem_of_filter. unfold passes.
  split.
  - intros [Hp Hin]. split; [done|].
    destruct (float r) as [fval|]; [|done].
    exists fval. split; [done|]. by apply Z.leb_le.
  - intros [Hin (fval & -> & Hle)]. split; [|done]. by apply Z.leb_le.
Qed.

Lemma key_lt_irrefl k : key_lt k k = false.
Proof. destruct k; simpl; [apply Z.ltb_irrefl|done]. Qed.

Lemma insert_by_key_Permutation x l : insert_by_key x l ≡ₚ x :: l.
Proof.
  induction l as [|y l IH]; [done|]. simpl.
  destruct (key_lt (key y) (key x)); [|done].
  rewrite IH. apply perm_swap.
Qed.

Lemma sort_by_float_Permutation l : sort_by_float l ≡ₚ l.
Proof.
  induction l as [|x l IH]; [done|]. simpl.
  rewrite insert_by_key_Permutation. by rewrite IH.
Qed.

(** A property that only rows of one key can share is untouched by the
    sort: the rows that have it keep their order. *)
Section stability.
Variable P : enrichment -> bool.
Hypothesis P_one_key : ∀ x y, P x = true → P y = true → key x = key y.

Lemma insert_by_key_stable x l :
  filter (fun r => P r = true) (insert_by_key x l)
  = filter (fun r => P r = true) (x :: l).
Proof.
  induction l as [|y l IH]; [done|]. simpl.
  destruct (key_lt (key y) (key x)) eqn:Hlt; [|done].
  rewrite filter_cons, IH. rewrite !filter_cons.
  destruct (decide (P y = true)) as [Hy|Hy]; [|done].
  destruct (decide (P x = true)) as [Hx|Hx]; [|done].
  rewrite (P_one_key x y Hx Hy), key_lt_irrefl in Hlt. done.
Qed.

Lemma sort_by_float_stable l :
  filter (fun r => P r = true) (sort_by_float l)
  = filter (fun r => P r = true) l.
Proof.
  induction l as [|x l IH]; [done|]. simpl.
  rewrite insert_by_key_stable, !filter_cons. by rewrite IH.
Qed.
End stability.

Lemma key_le_trans a b c : key_le a b → key_le b c → key_le a c.
Proof.
  unfold key_le. destruct a, b, c; simpl; try done.
  rewrite !Z.ltb_ge. lia.
Qed.

Lemma key_lt_le a b : key_lt a b = true → key_le a b.
Proof. unfold key_le. destruct a, b; simpl; try done. rewrite Z.ltb_lt, Z.ltb_ge. lia. Qed.

Lemma insert_by_key_sorted x l :
  StronglySorted (fun a b => key_le (key a) (key b)) l →
  StronglySorted (fun a b => key_le (key a) (key b)) (insert_by_key x l).
Proof.
  induction 1 as [|y l Hs IH Hall]; simpl.
  - repeat constructor.
  - destruct (key_lt (key y) (key x)) eqn:Hlt.
    + constructor; [done|].
      rewrite insert_by_key_Permutation. constructor; [|done].
      by apply key_lt_le.
    + constructor; [by constructor|].
      constructor; [done|].
      eapply Forall_impl; [exact Hall|]. intros z Hz. simpl in Hz.
      by eapply key_le_trans.
Qed.

Lemma sort_by_float_sorted l :
  StronglySorted (fun a b => key_le (key a) (key b)) (sort_by_float l).
Proof.
  induction l as [|x l IH]; simpl; [constructor|].
  by apply insert_by_key_sorted.
Qed.

(** ** The two loops over completed futures *)

Lemma elem_of_submitted {A B} (worker : A -> result B) items p :
  p ∈ submitted worker items ↔
  ∃ f x, items !! f = Some x ∧ p = (f, worker x).
Proof.
  unfold submitted. rewrite elem_of_lookup_imap.
  split; intros (f & x & H1 & H2); exists f, x; by split.
Qed.

Lemma run_batch_raises {A B} (call : A -> event) max_workers schedule
  (worker : A -> result B) items :
  max_workers ≤ 0 →
  run_batch call max_workers schedule worker items = Prog [] (Raise ValueError).
Proof.
  intros Hw. unfold run_batch.
  by destruct (Z.leb_spec max_workers 0) as [_|]; [|lia].
Qed.

Lemma run_batch_inv {A B} (call : A -> event) max_workers schedule
  (worker : A -> result B) items done :
  outcome (run_batch call max_workers schedule worker items) = Ok done →
  1 ≤ max_workers ∧ done ≡ₚ submitted worker items.
Proof.
  intros Hdone.
  destruct (Z.le_gt_cases max_workers 0) as [Hw|Hw].
  - by rewrite run_batch_raises in Hdone.
  - destruct (run_batch_spec call max_workers schedule worker items)
      as (done' & Hrun & Hperm); [lia|].
    rewrite Hrun in Hdone. simpl in Hdone. injection Hdone as <-.
    split; [lia|done].
Qed.

Lemma run_batch_trace {A B} (call : A -> event) max_workers schedule
  (worker : A -> result B) items ev :
  ev ∈ trace (run_batch call max_workers schedule worker items) →
  ∃ x, x ∈ items ∧ ev = call x.
Proof.
  destruct (Z.le_gt_cases max_workers 0) as [Hw|Hw].
  - rewrite run_batch_raises by done. simpl. by intros ?%elem_of_nil.
  - destruct (run_batch_spec call max_workers schedule worker items)
      as (done' & -> & _); [lia|].
    simpl. intros (x & -> & Hx)%list_elem_of_fmap. eauto.
Qed.

Lemma collect_returned {B} (done : list (nat * result B)) :
  Forall (fun p => is_Some (returned p.2)) done →
  collect done = Ok (omap (fun p => returned p.2) done).
Proof.
  induction 1 as [|[f res] done [b Hb] _ IH]; [done|].
  simpl in *. destruct res as [b'|]; [|done].
  simpl. rewrite IH. done.
Qed.

Lemma omap_returned_imap {A B} (g : A -> B) (h : nat -> nat) (items : list A) :
  omap (fun p : nat * result B => returned p.2)
       (imap (fun f x => (h f, Ok (g x))) items)
  = g <$> items.
Proof.
  revert h. induction items as [|x items IH]; intros h; [done|].
  rewrite imap_cons. cbn [omap list_omap returned snd fmap list_fmap].
  f_equal. apply (IH (h ∘ S)).
Qed.

Lemma omap_returned_submitted {A B} (g : A -> B) (items : list A) :
  omap (fun p => returned p.2) (submitted (fun x => Ok (g x)) items)
  = g <$> items.
Proof. apply (omap_returned_imap g id). Qed.

Lemma collect_pure {A B} (g : A -> B) items (done : list (nat * result B)) :
  done ≡ₚ submitted (fun x => Ok (g x)) items →
  ∃ results, collect done = Ok results ∧ results ≡ₚ g <$> items.
Proof.
  intros Hperm. exists (omap (fun p => returned p.2) done). split.
  - apply collect_returned. rewrite Hperm.
    apply Forall_forall. intros p (f & x & _ & ->)%elem_of_submitted.
    simpl. by eexists.
  - by rewrite Hperm, omap_returned_submitted.
Qed.

Lemma keep_supported_omap futures (done : list (nat * result bool)) :
  Forall (fun p => is_Some (futures !! p.1)) done →
  keep_supported futures done = Ok (omap (supported_row futures) done).
Proof.
  induction 1 as [|[f res] done [r Hr] _ IH]; [done|].
  simpl in *. unfold supported_row at 1. simpl. rewrite Hr, IH. simpl.
  by destruct (try_except res false).
Qed.

Lemma supported_rows_submitted (check : string -> bool) (pre l : list enrichment) :
  omap (supported_row (pre ++ l))
    (imap (fun f sym => ((length pre + f)%nat, Ok (check sym))) (symbol <$> l))
  = filter (fun r => check (symbol r) = true) l.
Proof.
  revert pre. induction l as [|r l IH]; intros pre; [done|].
  rewrite fmap_cons, imap_cons, filter_cons.
  cbn [omap list_omap]. unfold supported_row at 1. cbn [fst snd].
  rewrite Nat.add_0_r, list_lookup_middle by done. cbn [mbind option_bind].
  specialize (IH (pre ++ [r])). rewrite <- app_assoc in IH. cbn [app] in IH.
  assert (Hshift :
    imap ((fun f sym => ((length pre + f)%nat, Ok (check sym))) ∘ S)
         (symbol <$> l)
    = imap (fun f sym => ((length (pre ++ [r]) + f)%nat, Ok (check sym)))
         (symbol <$> l)).
  { apply imap_ext. intros i y _. cbn. rewrite length_app. cbn [length].
    f_equal. lia. }
  rewrite Hshift, IH.
  cbn [try_except]. by destruct (check (symbol r)).
Qed.

Lemma keep_supported_spec (check : string -> bool) filtered
  (done : list (nat * result bool)) :
  done ≡ₚ submitted (fun sym => Ok (check sym)) (symbol <$> filtered) →
  ∃ kept, keep_supported filtered done = Ok kept
        ∧ kept ≡ₚ filter (fun r => check (symbol r) = true) filtered.
Proof.
  intros Hperm. exists (omap (supported_row filtered) done). split.
  - apply keep_supported_omap. rewrite Hperm.
    apply Forall_forall. intros p (f & x & Hf & ->)%elem_of_submitted.
    simpl. rewrite list_lookup_fmap in Hf.
    destruct (filtered !! f); [by eexists|done].
  - rewrite Hperm. unfold submitted.
    by rewrite <- (supported_rows_submitted check [] filtered).
Qed.

(** ** What a run of [main] amounts to *)

Lemma bind_returned {A B} (t : list event) (a : A) (f : A -> prog B) :
  Prog t (Ok a) ≫= f = Prog (t ++ trace (f a)) (outcome (f a)).
Proof. reflexivity. Qed.

Lemma bind_raised {A B} (t : list event) (x : exn) (f : A -> prog B) :
  Prog t (Raise x) ≫= f = Prog t (Raise x).
Proof. reflexivity. Qed.

Lemma bind_lift_returned {A B} (a : A) (f : A -> prog B) :
  lift (Ok a) ≫= f = f a.
Proof. unfold lift, mbind, prog_bind. simpl. by destruct (f a). Qed.

Lemma bind_lift_raised {A B} (x : exn) (f : A -> prog B) :
  lift (Raise x) ≫= f = Prog [] (Raise x).
Proof. reflexivity. Qed.

Lemma bind_Ok {A B} (a : A) (f : A -> result B) : Ok a ≫= f = f a.
Proof. reflexivity. Qed.


(** *** The write of the file and the echo of the rows *)

Lemma print_rows_events e rows ev :
  ev ∈ trace (print_rows e rows) → ∃ r, r ∈ rows ∧ ev = Printed r.
Proof.
  induction rows as [|r rows IH]; cbn [print_rows].
  - by intros ?%elem_of_nil.
  - destruct (print_report_row e r) as [[]|x].
    2: { rewrite bind_lift_raised. by intros ?%elem_of_nil. }
    rewrite bind_lift_returned. unfold emit. rewrite bind_returned.
    cbn [trace app]. intros [->|Hev]%elem_of_cons.
    + exists r. split; [apply list_elem_of_here|done].
    + destruct (IH Hev) as (r' & Hr' & ->). exists r'.
      split; [by apply list_elem_of_further|done].
Qed.

Lemma print_rows_outcome e rows :
  match outcome (print_rows e rows) with
  | Ok _ => Forall (fun r => print_report_row e r = Ok tt) rows
  | Raise x => ∃ r, r ∈ rows ∧ print_report_row e r = Raise x
  end.
Proof.
  induction rows as [|r rows IH]; cbn [print_rows]; [by constructor|].
  destruct (print_report_row e r) as [[]|x] eqn:Hr.
  2: { rewrite bind_lift_raised. exists r.
       split; [apply list_elem_of_here|done]. }
  rewrite bind_lift_returned. unfold emit. rewrite bind_returned.
  cbn [outcome]. destruct (outcome (print_rows e rows)) as [u|x].
  - by constructor.
  - destruct IH as (r' & Hr' & Hx). exists r'.
    split; [by apply list_elem_of_further|done].
Qed.


(** The stage in one piece: what it leaves in the trace and how it ends,
    by the outcome of the write and of the echo. *)
Lemma report_stage_shape e a rows :
  report_stage e a rows =
    match csv_write e (output a) rows with
    | Raise x =>
        Prog match file_open e (output a) with
             | Ok _ => [CsvOpened (output a)]
             | Raise _ => []
             end (Raise x)
    | Ok _ =>
        Prog (CsvOpened (output a) :: CsvWritten (output a) rows
              :: trace (print_rows e (take 100 rows)))
             match outcome (print_rows e (take 100 rows)) with
             | Ok _ => Ok rows
             | Raise x => Raise x
             end
    end.
Proof.
  unfold report_stage, csv_write.
  destruct (file_open e (output a)) as [[]|x]; [|done].
  rewrite bind_lift_returned, bind_Ok. unfold emit. rewrite bind_returned.
  destruct (_ ← file_writerow e (output a) CSV_HEADER;
            write_rows e (output a) rows) as [[]|x]; [|done].
  rewrite bind_lift_returned, bind_returned.
  destruct (print_rows e (take 100 rows)) as [tr [[]|x]]; cbn.
  - by rewrite app_nil_r.
  - done.
Qed.

Lemma report_stage_returned e a rows report :
  outcome (report_stage e a rows) = Ok report →
  report = rows
  ∧ csv_write e (output a) rows = Ok tt
  ∧ Forall (fun r => print_report_row e r = Ok tt) (take 100 rows)
  ∧ CsvWritten (output a) rows ∈ trace (report_stage e a rows).
Proof.
  rewrite report_stage_shape.
  destruct (csv_write e (output a) rows) as [[]|x]; [|done]. cbn [outcome trace].
  assert (Hp := print_rows_outcome e (take 100 rows)).
  destruct (outcome (print_rows e (take 100 rows))) as [u|x]; [|done].
  intros [= <-]. repeat split; [done|].
  apply list_elem_of_further, list_elem_of_here.
Qed.




Lemma report_stage_events e a rows ev :
  ev ∈ trace (report_stage e a rows) →
  ev = CsvOpened (output a) ∨ ev = CsvWritten (output a) rows
  ∨ ∃ r, r ∈ rows ∧ ev = Printed r.
Proof.
  rewrite report_stage_shape.
  destruct (csv_write e (output a) rows) as [[]|x]; cbn [trace].
  - intros [->|[->|Hev]%elem_of_cons]%elem_of_cons; [by left|by right; left|].
    right. right. apply print_rows_events in Hev as (r & Hr & ->).
    exists r. split; [|done]. by eapply subseteq_take.
  - destruct (file_open e (output a)); [|by intros ?%elem_of_nil].
    intros ->%list_elem_of_singleton. by left.
Qed.

Lemma main_source_failed e a schedule1 schedule2 x :
  download_symbol_list e = Raise x →
  main e a schedule1 schedule2 = Prog [] (Raise x).
Proof. intros Hd. unfold main. rewrite Hd. reflexivity. Qed.

Lemma main_no_workers e a schedule1 schedule2 symbols :
  download_symbol_list e = Ok symbols →
  workers a ≤ 0 →
  main e a schedule1 schedule2 = Prog [] (Raise ValueError).
Proof.
  intros Hd Hw. unfold main. rewrite Hd, bind_lift_returned.
  rewrite run_batch_raises by done. reflexivity.
Qed.

Lemma main_run e a schedule1 schedule2 symbols :
  download_symbol_list e = Ok symbols →
  1 ≤ workers a →
  ∃ results kept,
    results ≡ₚ fetch_float e <$> limited a symbols ∧
    kept ≡ₚ eligible e a (filter_by_float (cutoff a) results) ∧
    main e a schedule1 schedule2 =
      Prog ((Enrich <$> limited a symbols)
            ++ (if robinhood a
                then Eligibility <$>
                       (symbol <$> filter_by_float (cutoff a) results)
                else [])
            ++ trace (report_stage e a (sort_by_float kept)))
           (outcome (report_stage e a (sort_by_float kept))).
Proof.
  intros Hd Hw. unfold main. rewrite Hd, bind_lift_returned.
  fold (limited a symbols).
  destruct (run_batch_spec Enrich (workers a) schedule1
              (fun sym => Ok (fetch_float e sym)) (limited a symbols) Hw)
    as (done1 & -> & Hperm1).
  destruct (collect_pure (fetch_float e) (limited a symbols) done1 Hperm1)
    as (results & Hcollect & Hresults).
  rewrite bind_returned, Hcollect, bind_lift_returned.
  set (filtered := filter_by_float (cutoff a) results).
  assert (Hstage : ∃ kept,
    kept ≡ₚ eligible e a filtered ∧
    (if robinhood a
     then done2 ← run_batch Eligibility (Z.max 4 (workers a)) schedule2
                    (fun sym => Ok (robinhood_has_symbol e sym))
                    (symbol <$> filtered);
          lift (keep_supported filtered done2)
     else mret filtered)
    = Prog (if robinhood a then Eligibility <$> (symbol <$> filtered) else [])
           (Ok kept)).
  { unfold eligible. destruct (robinhood a).
    - destruct (run_batch_spec Eligibility (Z.max 4 (workers a)) schedule2
                  (fun sym => Ok (robinhood_has_symbol e sym))
                  (symbol <$> filtered)) as (done2 & -> & Hperm2); [lia|].
      destruct (keep_supported_spec (robinhood_has_symbol e) filtered done2
                  Hperm2) as (kept & Hkeep & Hkept).
      exists kept. split; [done|].
      rewrite bind_returned, Hkeep. simpl. by rewrite app_nil_r.
    - by exists filtered. }
  destruct Hstage as (kept & Hkept & ->).
  exists results, kept. split; [done|]. split; [done|].
  rewrite bind_returned. fold (report_stage e a (sort_by_float kept)).
  reflexivity.
Qed.

Lemma main_report e a schedule1 schedule2 report :
  outcome (main e a schedule1 schedule2) = Ok report →
  ∃ symbols results kept,
    download_symbol_list e = Ok symbols ∧
    1 ≤ workers a ∧
    results ≡ₚ fetch_float e <$> limited a symbols ∧
    kept ≡ₚ eligible e a (filter_by_float (cutoff a) results) ∧
    report = sort_by_float kept ∧
    csv_write e (output a) report = Ok tt ∧
    CsvWritten (output a) report ∈ trace (main e a schedule1 schedule2).
Proof.
  intros Hmain.
  destruct (download_symbol_list e) as [symbols|x] eqn:Hd.
  2: { by rewrite (main_source_failed _ _ _ _ _ Hd) in Hmain. }
  destruct (Z.le_gt_cases (workers a) 0) as [Hw|Hw].
  { by rewrite (main_no_workers _ _ _ _ _ Hd Hw) in Hmain. }
  destruct (main_run e a schedule1 schedule2 symbols Hd) as
    (results & kept & Hres & Hkept & Hrun); [lia|].
  rewrite Hrun in Hmain |- *. cbn [outcome trace] in Hmain |- *.
  apply report_stage_returned in Hmain as (-> & Hcsv & _ & Hev).
  exists symbols, results, kept.
  repeat split; [lia|done|done|done|].
  rewrite !elem_of_app. by right; right.
Qed.

Lemma symbol_fetch_float e sym : symbol (fetch_float e sym) = sym.
Proof.
  unfold fetch_float, fetch_float_try.
  destruct (yf_info e sym) as [t_info|]; [|done]. rewrite bind_Ok.
  destruct (as_dict _) as [info|]; [|done]. rewrite bind_Ok.
  destruct (extract_float e info); reflexivity.
Qed.

(** Every row of a report came out of [fetch_float], passed the float
    filter and, where the Robinhood stage ran, its check. *)
Lemma report_row e a schedule1 schedule2 report r :
  outcome (main e a schedule1 schedule2) = Ok report →
  r ∈ report →
  r = fetch_float e (symbol r) ∧
  within_cutoff (cutoff a) r ∧
  (robinhood a = true → robinhood_has_symbol e (symbol r) = true).
Proof.
  intros (symbols & results & kept & _ & _ & Hres & Hkept & -> & _)%main_report.
  rewrite sort_by_float_Permutation, Hkept. intros Hin.
  assert (Hfilt : r ∈ filter_by_float (cutoff a) results ∧
                  (robinhood a = true →
                   robinhood_has_symbol e (symbol r) = true)).
  { unfold eligible in Hin. destruct (robinhood a).
    - apply list_elem_of_filter in Hin as [? ?]. done.
    - done. }
  destruct Hfilt as [Hfilt Hrh].
  apply elem_of_filter_by_float in Hfilt as [Hin' Hcut].
  rewrite Hres in Hin'. apply list_elem_of_fmap in Hin' as (sym & Heq & _).
  split; [|done]. by rewrite Heq, symbol_fetch_float.
Qed.

(** ** The report: float filter, failed lookups, eligibility *)

Lemma eligible_subseteq e a (filtered : list enrichment) :
  eligible e a filtered ⊆ filtered.
Proof.
  unfold eligible. destruct (robinhood a); [|done].
  intros r Hr. by apply list_elem_of_filter in Hr as [_ ?].
Qed.

Lemma kept_within_cutoff e a (results kept : list enrichment) :
  kept ≡ₚ eligible e a (filter_by_float (cutoff a) results) →
  Forall (within_cutoff (cutoff a)) (sort_by_float kept).
Proof.
  intros Hkept. apply Forall_forall. intros r.
  rewrite sort_by_float_Permutation, Hkept.
  intros Hr%eligible_subseteq.
  by apply elem_of_filter_by_float in Hr as [_ ?].
Qed.

Lemma main_trace_event e a schedule1 schedule2 ev :
  ev ∈ trace (main e a schedule1 schedule2) →
  (∃ sym, ev = Enrich sym) ∨
  (∃ sym, ev = Eligibility sym ∧ robinhood a = true) ∨
  ev = CsvOpened (output a) ∨
  (∃ rows, ev = CsvWritten (output a) rows ∧
           Forall (within_cutoff (cutoff a)) rows) ∨
  (∃ r, ev = Printed r).
Proof.
  destruct (download_symbol_list e) as [symbols|x] eqn:Hd.
  2: { rewrite (main_source_failed _ _ _ _ _ Hd). by intros ?%elem_of_nil. }
  destruct (Z.le_gt_cases (workers a) 0) as [Hw|Hw].
  { rewrite (main_no_workers _ _ _ _ _ Hd Hw). by intros ?%elem_of_nil. }
  destruct (main_run e a schedule1 schedule2 symbols Hd) as
    (results & kept & _ & Hkept & ->); [lia|].
  cbn [trace outcome]. rewrite !elem_of_app.
  intros [Hev|[Hev|Hev]].
  - apply list_elem_of_fmap in Hev as (sym & -> & _). left. by exists sym.
  - right. left. destruct (robinhood a); [|by apply elem_of_nil in Hev].
    apply list_elem_of_fmap in Hev as (sym & -> & _). by exists sym.
  - right. right.
    apply report_stage_events in Hev as [->|[->|(r & _ & ->)]].
    + by left.
    + right. left. eexists. split; [done|]. by eapply kept_within_cutoff.
    + right. right. by exists r.
Qed.

(** C1. The float filter keeps exactly the records whose float is present
    and at most the cutoff, whatever the records and the cutoff; and every
    row of the final report of [main], which is the list written to the CSV
    file, has a float that is present and at most the cutoff. *)
Theorem report_float_within_cutoff :
  (∀ cutoff records r,
     r ∈ filter_by_float cutoff records ↔ r ∈ records ∧ within_cutoff cutoff r)
  ∧ (∀ e a schedule1 schedule2 report,
       outcome (main e a schedule1 schedule2) = Ok report →
       CsvWritten (output a) report ∈ trace (main e a schedule1 schedule2)
       ∧ Forall (within_cutoff (cutoff a)) report)
  ∧ (∀ e a schedule1 schedule2 path rows,
       CsvWritten path rows ∈ trace (main e a schedule1 schedule2) →
       Forall (within_cutoff (cutoff a)) rows).
Proof.
  assert (Hreport : ∀ e a schedule1 schedule2 report,
            outcome (main e a schedule1 schedule2) = Ok report →
            Forall (within_cutoff (cutoff a)) report).
  { intros e a schedule1 schedule2 report Hmain.
    apply Forall_forall. intros r Hr.
    by destruct (report_row _ _ _ _ _ _ Hmain Hr) as (_ & ? & _). }
  split; [|split].
  - intros cutoff records r. apply elem_of_filter_by_float.
  - intros e a schedule1 schedule2 report Hmain. split; [|by eapply Hreport].
    by destruct (main_report _ _ _ _ _ Hmain) as (?&?&?&?&?&?&?&?&?&?).
  - intros e a schedule1 schedule2 path rows Hev.
    apply main_trace_event in Hev
      as [[? ?]|[(? & ? & _)|[?|[(rows' & Heq & Hrows)|[? ?]]]]]; try done.
    by injection Heq as _ <-.
Qed.

Lemma report_float_within_cutoff_witness :
  outcome (main Demo.world (Demo.run_args 10000000 false) [] []) = Ok [Demo.aaa]
  ∧ Forall (within_cutoff 10000000) [Demo.aaa].
Proof.
  split; [reflexivity|].
  apply (proj1 (proj2 report_float_within_cutoff) Demo.world
           (Demo.run_args 10000000 false) [] [] [Demo.aaa]).
  reflexivity.
Defined.




(** C6. When the Robinhood filter is requested, every row of the final
    report is for a symbol whose check answers true; when it is not
    requested, [robinhood_has_symbol] is called for no symbol at all. *)
Theorem eligibility_only_when_requested e a schedule1 schedule2 :
  (robinhood a = true →
   ∀ report, outcome (main e a schedule1 schedule2) = Ok report →
             Forall (fun r => robinhood_has_symbol e (symbol r) = true) report)
  ∧ (robinhood a = false →
     ∀ sym, Eligibility sym ∉ trace (main e a schedule1 schedule2)).
Proof.
  split.
  - intros Hrh report Hmain. apply Forall_forall. intros r Hr.
    destruct (report_row _ _ _ _ _ _ Hmain Hr) as (_ & _ & Hok). by apply Hok.
  - intros Hrh sym Hev.
    apply main_trace_event in Hev
      as [[? ?]|[(? & _ & Hrh')|[?|[(? & ? & _)|[? ?]]]]]; try done.
    by rewrite Hrh in Hrh'.
Qed.

Lemma eligibility_only_when_requested_witness :
  (outcome (main Demo.world (Demo.run_args 60000000 true) [] []) = Ok [Demo.bbb]
   ∧ Forall (fun r => robinhood_has_symbol Demo.world (symbol r) = true)
       [Demo.bbb])
  ∧ Eligibility "AAA"
      ∉ trace (main Demo.world (Demo.run_args 60000000 false) [] []).
Proof.
  split; [split; [reflexivity|]|].
  - apply (proj1 (eligibility_only_when_requested Demo.world
                    (Demo.run_args 60000000 true) [] []));
      reflexivity.
  - apply (proj2 (eligibility_only_when_requested Demo.world
                    (Demo.run_args 60000000 false) [] []));
      reflexivity.
Defined.

(** ** The batch runner and the fatal failures *)











(** ** The symbol source *)

Section string_order.

Lemma ascii_compare_eq a b : Ascii.compare a b = Eq → a = b.
Proof. apply Ascii.compare_eq_iff. Qed.

Lemma ascii_compare_refl a : Ascii.compare a a = Eq.
Proof. unfold Ascii.compare. apply N.compare_refl. Qed.

Lemma ascii_compare_lt_trans a b c :
  Ascii.compare a b = Lt → Ascii.compare b c = Lt → Ascii.compare a c = Lt.
Proof.
  unfold Ascii.compare. rewrite !N.compare_lt_iff. lia.
Qed.

Lemma string_compare_refl s : String.compare s s = Eq.
Proof.
  induction s as [|a s IH]; [done|]. simpl. by rewrite ascii_compare_refl.
Qed.

Lemma string_compare_lt_trans s1 s2 s3 :
  String.compare s1 s2 = Lt → String.compare s2 s3 = Lt →
  String.compare s1 s3 = Lt.
Proof.
  revert s2 s3.
  induction s1 as [|a s1 IH]; intros [|b s2] [|c s3]; simpl; try done.
  destruct (Ascii.compare a b) eqn:Hab; try done;
    destruct (Ascii.compare b c) eqn:Hbc; try done; intros H12 H23.
  - apply ascii_compare_eq in Hab as ->. rewrite Hbc. by eapply IH.
  - apply ascii_compare_eq in Hab as ->. by rewrite Hbc.
  - apply ascii_compare_eq in Hbc as <-. by rewrite Hab.
  - by rewrite (ascii_compare_lt_trans a b c).
Qed.

Lemma str_le_lt_eq s1 s2 : str_le s1 s2 ↔ str_lt s1 s2 ∨ s1 = s2.
Proof.
  unfold str_le, str_lt, String.leb, String.ltb.
  destruct (String.compare s1 s2) eqn:Hc.
  - apply String.compare_eq_iff in Hc. split; [by right|done].
  - split; [by left|done].
  - split; [done|]. intros [?| ->]; [done|].
    by rewrite string_compare_refl in Hc.
Qed.

#[local] Instance str_le_trans : Transitive str_le.
Proof.
  intros s1 s2 s3. rewrite !str_le_lt_eq.
  intros [H12| ->] [H23| ->]; auto.
  left. unfold str_lt, String.ltb in *.
  destruct (String.compare s1 s2) eqn:E12; try done.
  destruct (String.compare s2 s3) eqn:E23; try done.
  by rewrite (string_compare_lt_trans s1 s2 s3).
Qed.

#[local] Instance str_le_total : Total str_le.
Proof. intros s1 s2. apply String.leb_total. Qed.

Lemma sorted_strictly (l : list string) :
  StronglySorted str_le l → NoDup l → StronglySorted str_lt l.
Proof.
  induction 1 as [|x l Hs IH Hall]; intros Hnd; [constructor|].
  apply NoDup_cons in Hnd as [Hx Hnd]. constructor; [by apply IH|].
  apply Forall_forall. intros y Hy.
  rewrite Forall_forall in Hall. specialize (Hall y Hy).
  apply str_le_lt_eq in Hall as [?| ->]; done.
Qed.

Lemma sorted_spec (symbols : gset string) :
  StronglySorted str_lt (sorted symbols) ∧ NoDup (sorted symbols) ∧
  ∀ sym, sym ∈ sorted symbols ↔ sym ∈ symbols.
Proof.
  unfold sorted.
  assert (Hperm := merge_sort_Permutation str_le (elements symbols)).
  assert (Hnd : NoDup (merge_sort str_le (elements symbols))).
  { rewrite Hperm. apply NoDup_elements. }
  split; [|split; [done|]].
  - apply sorted_strictly; [|done]. apply StronglySorted_merge_sort; apply _.
  - intros sym. by rewrite Hperm, elem_of_elements.
Qed.

End string_order.

Lemma scan_lines_step line rest symbols :
  scan_lines (line :: rest) symbols =
    if ends_table line then symbols
    else if negb (String.eqb (spec_candidate line) "")
            && negb (String.eqb (spec_candidate line) "Symbol")
         then scan_lines rest ({[ spec_candidate line ]} ∪ symbols)
         else scan_lines rest symbols.
Proof.
  cbn [scan_lines]. fold (ends_table line). unfold spec_candidate.
  destruct (ends_table line); [done|]. by destruct (split "|" line).
Qed.

Lemma scan_lines_spec lines symbols :
  scan_lines lines symbols =
    list_to_set (filter (fun sym => sym ≠ "" ∧ sym ≠ "Symbol")
                   (spec_candidate <$> take_until ends_table lines))
    ∪ symbols.
Proof.
  revert symbols. induction lines as [|line rest IH]; intros symbols.
  - simpl. set_solver.
  - rewrite scan_lines_step. cbn [take_until].
    destruct (ends_table line); [simpl; set_solver|].
    rewrite fmap_cons, filter_cons.
    generalize (spec_candidate line) as c. intros c.
    destruct (String.eqb_spec c "") as [He|He];
      destruct (String.eqb_spec c "Symbol") as [Hs|Hs]; cbn [negb andb].
    + rewrite decide_False by (intros [? _]; done). apply IH.
    + rewrite decide_False by (intros [? _]; done). apply IH.
    + rewrite decide_False by (intros [_ ?]; done). apply IH.
    + rewrite decide_True by done. rewrite IH, list_to_set_cons. set_solver.
Qed.

(** C5. When both directories are served, [download_symbol_list] returns a
    list that is strictly increasing in the order of code points, hence
    sorted and without duplicates, and whose members are exactly the tickers
    that the parsing rule yields on one resource or the other: a ticker
    listed in both is there once. *)
Theorem download_symbol_list_sorted_tickers e r1 r2 :
  http_get e NASDAQ_LISTED_URL = Ok r1 →
  http_get e OTHER_LISTED_URL = Ok r2 →
  ¬ unavailable e NASDAQ_LISTED_URL →
  ¬ unavailable e OTHER_LISTED_URL →
  ∃ symbols,
    download_symbol_list e = Ok symbols
    ∧ StronglySorted str_lt symbols
    ∧ NoDup symbols
    ∧ ∀ sym, sym ∈ symbols ↔
             sym ∈ spec_tickers (text r1) ∨ sym ∈ spec_tickers (text r2).
Proof.
  intros H1 H2 Hu1 Hu2. unfold unavailable in Hu1, Hu2.
  rewrite H1 in Hu1. rewrite H2 in Hu2.
  unfold download_symbol_list, download_from, raise_for_status.
  rewrite H1, bind_Ok.
  destruct (Z.leb_spec 400 (status_code r1)), (Z.ltb_spec (status_code r1) 600);
    cbn [andb]; try lia.
  all: rewrite bind_Ok, H2, bind_Ok.
  all: destruct (Z.leb_spec 400 (status_code r2)),
                (Z.ltb_spec (status_code r2) 600); cbn [andb]; try lia.
  all: rewrite !bind_Ok.
  all: eexists; split; [reflexivity|].
  all: destruct (sorted_spec
         (scan_lines (tail (splitlines (text r2)))
            (scan_lines (tail (splitlines (text r1))) ∅)))
         as (Hsorted & Hnd & Hmem).
  all: split; [done|]; split; [done|].
  all: intros sym; rewrite Hmem, !scan_lines_spec; unfold spec_tickers.
  all: rewrite !elem_of_union, !elem_of_list_to_set; set_solver.
Qed.

Lemma download_symbol_list_sorted_tickers_witness :
  ∃ symbols,
    download_symbol_list Demo.world = Ok symbols
    ∧ StronglySorted str_lt symbols
    ∧ NoDup symbols
    ∧ ∀ sym, sym ∈ symbols ↔
             sym ∈ spec_tickers Demo.nasdaq_txt ∨ sym ∈ spec_tickers Demo.other_txt.
Proof.
  apply (download_symbol_list_sorted_tickers Demo.world
           (Demo.page Demo.nasdaq_txt) (Demo.page Demo.other_txt)).
  - reflexivity.
  - reflexivity.
  - change (¬ (400 ≤ 200 < 600)). lia.
  - change (¬ (400 ≤ 200 < 600)). lia.
Defined.

(** ** The float extraction of [fetch_float] *)

Lemma scan_numeric_first info keys :
  scan_numeric info keys =
    match spec_first_number info keys with
    | Some v => float_shares ← int v; Ok (Some float_shares)
    | None => Ok None
    end.
Proof.
  unfold spec_first_number.
  induction keys as [|k keys IH]; [done|].
  cbn [scan_numeric]. rewrite fmap_cons, filter_cons.
  fold (accepted_number (get info k)).
  destruct (accepted_number (get info k)) eqn:Hacc.
  - by rewrite decide_True.
  - by rewrite decide_False.
Qed.

Lemma scan_strings_first e info keys :
  scan_strings e info keys = spec_first_string e info keys.
Proof.
  unfold spec_first_string.
  induction keys as [|k keys IH]; [done|].
  cbn [scan_strings]. rewrite fmap_cons. cbn [omap list_omap].
  unfold spec_reparsed at 1.
  destruct (get info k) as [| | | |s| |]; try exact IH.
  destruct (f ← float_of_str e (remove_char "," s); int_of_float f)
    as [fv|]; [|exact IH].
  by destruct (0 <? fv).
Qed.

Lemma fetch_float_returned e sym t_info info float_shares :
  yf_info e sym = Ok t_info →
  as_dict (if truthy t_info then t_info else PyDict ∅) = Ok info →
  extract_float e info = Ok float_shares →
  fetch_float e sym =
    {| symbol := sym;
       float := float_shares;
       shortName := get info "shortName";
       exchange := get info "exchange";
       marketCap := get info "marketCap" |}.
Proof.
  intros Hinfo Hdict Hfloat. unfold fetch_float, fetch_float_try.
  by rewrite Hinfo, bind_Ok, Hdict, bind_Ok, Hfloat, bind_Ok.
Qed.

(** C9. The share count that [fetch_float] extracts is the first value, in
    the order of the primary keys, that is numeric and strictly greater than
    zero, made an [int]; only when no primary key holds such a value does it
    come from the secondary keys, as the first string value that, its commas
    removed, parses to a positive number. Whether a share count was found or
    not, the record carries the name, exchange and market capitalisation that
    the answer holds. *)
Theorem share_count_by_priority e :
  (∀ info, extract_float e info = spec_share_count e info)
  ∧ (∀ sym t_info info float_shares,
       yf_info e sym = Ok t_info →
       as_dict (if truthy t_info then t_info else PyDict ∅) = Ok info →
       spec_share_count e info = Ok float_shares →
       float (fetch_float e sym) = float_shares
       ∧ shortName (fetch_float e sym) = get info "shortName"
       ∧ exchange (fetch_float e sym) = get info "exchange"
       ∧ marketCap (fetch_float e sym) = get info "marketCap").
Proof.
  assert (Hextract : ∀ info, extract_float e info = spec_share_count e info).
  { intros info. unfold extract_float, spec_share_count.
    rewrite scan_numeric_first.
    destruct (spec_first_number info numeric_keys) as [v|].
    - destruct (int v) as [z|x]; reflexivity.
    - rewrite bind_Ok. by rewrite scan_strings_first. }
  split; [done|].
  intros sym t_info info float_shares Hinfo Hdict Hcount.
  rewrite <- Hextract in Hcount.
  by rewrite (fetch_float_returned _ _ _ _ _ Hinfo Hdict Hcount).
Qed.

Lemma share_count_by_priority_witness :
  float (fetch_float Demo.world "AAA") = Some 5000000
  ∧ shortName (fetch_float Demo.world "AAA") = get Demo.aaa_info "shortName"
  ∧ exchange (fetch_float Demo.world "AAA") = get Demo.aaa_info "exchange"
  ∧ marketCap (fetch_float Demo.world "AAA") = get Demo.aaa_info "marketCap".
Proof.
  apply (proj2 (share_count_by_priority Demo.world) "AAA"
           (PyDict Demo.aaa_info) Demo.aaa_info (Some 5000000)); reflexivity.
Defined.

(** ** The eligibility check *)

Lemma robinhood_has_symbol_true e sym :
  robinhood_has_symbol e sym = true ↔
  ∃ r body,
    http_get e (ROBINHOOD_INSTRUMENTS sym) = Ok r
    ∧ status_code r = 200
    ∧ json r = Ok (PyDict body)
    ∧ truthy (get body "results") = true.
Proof.
  unfold robinhood_has_symbol, robinhood_has_symbol_try.
  destruct (http_get e (ROBINHOOD_INSTRUMENTS sym)) as [r|x].
  2: { split; [done|]. by intros (? & ? & ? & _). }
  rewrite bind_Ok.
  destruct (Z.eqb_spec (status_code r) 200) as [Hs|Hs]; cbn [negb].
  2: { split; [done|]. intros (r' & ? & Hr & ? & _).
       injection Hr as <-. done. }
  destruct (json r) as [data|x] eqn:Hjson.
  2: { split; [done|]. intros (r' & ? & Hr & _ & Hj & _).
       injection Hr as <-. congruence. }
  rewrite bind_Ok.
  destruct data as [| | | | | |body]; cbn [as_dict].
  1-6: split; [done|]; intros (r' & ? & Hr & _ & Hj & _);
       injection Hr as <-; congruence.
  rewrite bind_Ok. cbn [try_except]. split.
  - intros Ht. by exists r, body.
  - intros (r' & body' & Hr & _ & Hj & Ht). injection Hr as <-. congruence.
Qed.

(** C4, as the claim has it, fails: a body whose ["results"] is the number 1
    is answered with true, though it holds no collection. *)
Lemma robinhood_has_symbol_counts_numbers :
  ¬ (∀ e sym, robinhood_has_symbol e sym = true ↔ spec_eligible e sym).
Proof.
  intros Hclaim.
  destruct (proj1 (Hclaim Demo.count_world "AAA") eq_refl)
    as (r & body & results & Hget & _ & Hjson & Hres & Hcoll).
  injection Hget as <-. injection Hjson as <-.
  vm_compute in Hres. injection Hres as <-. exact Hcoll.
Qed.

(** C4, amended. [robinhood_has_symbol] answers true exactly when the status
    code is 200 and the parsed body is an object whose ["results"] entry is
    truthy; a request that raises, any other status, a body that does not
    parse or is no object give false. Being a function to [bool], it never
    raises. *)
Theorem robinhood_has_symbol_truthy_results e sym :
  (robinhood_has_symbol e sym = true ↔
   ∃ r body,
     http_get e (ROBINHOOD_INSTRUMENTS sym) = Ok r
     ∧ status_code r = 200
     ∧ json r = Ok (PyDict body)
     ∧ truthy (get body "results") = true)
  ∧ (∀ x, http_get e (ROBINHOOD_INSTRUMENTS sym) = Raise x →
          robinhood_has_symbol e sym = false)
  ∧ (∀ r, http_get e (ROBINHOOD_INSTRUMENTS sym) = Ok r →
          status_code r ≠ 200 ∨ (∃ x, json r = Raise x)
          ∨ (∃ data, json r = Ok data ∧ ∀ body, data ≠ PyDict body) →
          robinhood_has_symbol e sym = false).
Proof.
  split; [apply robinhood_has_symbol_true|]. split.
  - intros x Hget. apply not_true_is_false.
    intros (r & _ & Hget' & _)%robinhood_has_symbol_true. congruence.
  - intros r Hget Hbad. apply not_true_is_false.
    intros (r' & body & Hget' & Hs & Hj & _)%robinhood_has_symbol_true.
    assert (r' = r) as -> by congruence.
    destruct Hbad as [Hbad|[[x Hbad]|(data & Hbad & Hno)]]; [done|congruence|].
    apply (Hno body). congruence.
Qed.

Lemma robinhood_has_symbol_truthy_results_witness :
  robinhood_has_symbol Demo.world "BBB" = true
  ∧ robinhood_has_symbol Demo.world "AAA" = false
  ∧ robinhood_has_symbol Demo.world "CCC" = false.
Proof.
  split; [|split].
  - apply (proj1 (robinhood_has_symbol_truthy_results Demo.world "BBB")).
    exists (Demo.api (PyDict (<["results" := PyList [PyDict ∅]]> ∅))),
           (<["results" := PyList [PyDict ∅]]> ∅).
    repeat split; reflexivity.
  - destruct (robinhood_has_symbol Demo.world "AAA") eqn:Hrh; [|reflexivity].
    apply (proj1 (robinhood_has_symbol_truthy_results Demo.world "AAA")) in Hrh
      as (r & body & Hget & _ & Hjson & Ht).
    injection Hget as <-. injection Hjson as <-. discriminate Ht.
  - apply (proj1 (proj2 (robinhood_has_symbol_truthy_results Demo.world "CCC"))
             ConnectionError).
    reflexivity.
Defined.

(** ** The order of the report *)

Lemma StronglySorted_weaken {A} (R R' : A -> A -> Prop) (P : A -> Prop) l :
  (∀ x y, P x → P y → R x y → R' x y) →
  Forall P l → StronglySorted R l → StronglySorted R' l.
Proof.
  intros HR HP Hs. induction Hs as [|x l Hs IH Hall]; [constructor|].
  apply Forall_cons in HP as [Hx HP]. constructor; [by apply IH|].
  rewrite Forall_forall in Hall, HP |- *. intros y Hy.
  apply HR; auto.
Qed.

(** Where no float is missing or zero, the sort key is the float and the
    sorted list ascends by float. *)
Lemma sort_by_float_ascending l :
  Forall (fun r => ∃ fval, float r = Some fval ∧ fval ≠ 0) l →
  ascending_by_float (sort_by_float l).
Proof.
  intros Hl. unfold ascending_by_float.
  eapply StronglySorted_weaken; [| |apply sort_by_float_sorted].
  2: { rewrite sort_by_float_Permutation. exact Hl. }
  intros x y (fx & Hx & Hx0) (fy & Hy & Hy0).
  unfold key_le, key, float_le. rewrite Hx, Hy.
  destruct (Z.eqb_spec fx 0), (Z.eqb_spec fy 0); try done.
  simpl. by rewrite Z.ltb_ge.
Qed.

(** The sort is stable: the rows of any given float are in the order they
    had before the sort. *)
Lemma sort_by_float_stable_float f l :
  filter (fun r => has_float f r = true) (sort_by_float l)
  = filter (fun r => has_float f r = true) l.
Proof.
  apply sort_by_float_stable. intros x y Hx Hy.
  unfold has_float in *. apply bool_decide_eq_true in Hx, Hy.
  unfold key. by rewrite Hx, Hy.
Qed.

(** C10. yfinance reports half a share for AAA, a valid binary64 number
    greater than zero. [fetch_float] accepts it and truncates it: the float
    of the record is 0, neither [None] nor positive. The row passes the
    filter, its sort key is the infinity fallback, and it is in the
    report. *)
Theorem fetch_float_truncates_to_zero :
  SpecFloat.bounded 53 1024 4503599627370496 (-53) = true
  ∧ gt_zero (PyFloat Demo.half) = true
  ∧ float (fetch_float Demo.penny_world "AAA") = Some 0
  ∧ key (fetch_float Demo.penny_world "AAA") = KInf
  ∧ ∃ report,
      outcome (main Demo.penny_world (Demo.run_args 10000000 false) [] [])
        = Ok report
      ∧ fetch_float Demo.penny_world "AAA" ∈ report.
Proof.
  repeat split; try reflexivity.
  exists [Demo.penny_bbb; Demo.penny_aaa]. split; [reflexivity|].
  apply list_elem_of_further, list_elem_of_here.
Qed.

(** C3. In the same world the report lists BBB, float 5000000, before AAA,
    float 0: it does not ascend by float. *)
Theorem report_not_ascending :
  outcome (main Demo.penny_world (Demo.run_args 10000000 false) [] [])
    = Ok [Demo.penny_bbb; Demo.penny_aaa]
  ∧ ¬ ascending_by_float [Demo.penny_bbb; Demo.penny_aaa].
Proof.
  split; [reflexivity|].
  intros Hasc. apply StronglySorted_inv in Hasc as [_ Hall].
  apply Forall_cons in Hall as [Hle _].
  unfold float_le in Hle. simpl in Hle. lia.
Qed.

(** ** What a run calls and writes *)

Lemma enrich_calls_app tr1 tr2 :
  enrich_calls (tr1 ++ tr2) = enrich_calls tr1 ++ enrich_calls tr2.
Proof. apply omap_app. Qed.

Lemma eligibility_calls_app tr1 tr2 :
  eligibility_calls (tr1 ++ tr2) = eligibility_calls tr1 ++ eligibility_calls tr2.
Proof. apply omap_app. Qed.


Lemma calls_of_enrich (syms : list string) :
  enrich_calls (Enrich <$> syms) = syms
  ∧ eligibility_calls (Enrich <$> syms) = []
  ∧ csv_writes (Enrich <$> syms) = [].
Proof.
  induction syms as [|sym syms (IH1 & IH2 & IH3)]; [done|].
  unfold enrich_calls, eligibility_calls, csv_writes in *.
  rewrite fmap_cons. cbn [omap list_omap]. by rewrite IH1, IH2, IH3.
Qed.

Lemma calls_of_eligibility (syms : list string) :
  enrich_calls (Eligibility <$> syms) = []
  ∧ eligibility_calls (Eligibility <$> syms) = syms
  ∧ csv_writes (Eligibility <$> syms) = [].
Proof.
  induction syms as [|sym syms (IH1 & IH2 & IH3)]; [done|].
  unfold enrich_calls, eligibility_calls, csv_writes in *.
  rewrite fmap_cons. cbn [omap list_omap]. by rewrite IH1, IH2, IH3.
Qed.

Lemma fetched_symbols e (syms : list string) : symbol <$> (fetch_float e <$> syms) = syms.
Proof.
  induction syms as [|sym syms IH]; [done|].
  rewrite !fmap_cons, IH. by rewrite symbol_fetch_float.
Qed.

Lemma filter_fetched e (P : enrichment -> bool) (syms : list string) :
  filter (fun r => P r = true) (fetch_float e <$> syms)
  = fetch_float e <$> filter (fun sym => P (fetch_float e sym) = true) syms.
Proof.
  induction syms as [|sym syms IH]; [done|].
  rewrite fmap_cons, !filter_cons, IH.
  by destruct (decide (P (fetch_float e sym) = true)).
Qed.

Lemma limited_NoDup e a symbols :
  download_symbol_list e = Ok symbols → NoDup (limited a symbols).
Proof.
  intros Hd. unfold download_symbol_list in Hd.
  destruct (download_from e _ ∅) as [set|]; [|done].
  rewrite bind_Ok in Hd. injection Hd as <-.
  destruct (sorted_spec set) as (_ & Hnd & _).
  unfold limited. destruct (0 <? limit a); [|done].
  eapply sublist_NoDup; [done|apply sublist_take].
Qed.

Lemma limited_subseteq a (symbols : list string) : limited a symbols ⊆ symbols.
Proof.
  unfold limited. destruct (0 <? limit a); [|done].
  apply sublist_subseteq, sublist_take.
Qed.

Lemma omap_none {A B} (f : A -> option B) (l : list A) :
  (∀ x, x ∈ l → f x = None) → omap f l = [].
Proof.
  induction l as [|x l IH]; [done|]. intros Hnone. cbn [omap list_omap].
  rewrite (Hnone x) by apply list_elem_of_here.
  apply IH. intros y Hy. apply Hnone. by apply list_elem_of_further.
Qed.

Lemma calls_of_report_stage e a rows :
  enrich_calls (trace (report_stage e a rows)) = []
  ∧ eligibility_calls (trace (report_stage e a rows)) = [].
Proof.
  split; apply omap_none; intros ev Hev;
    by apply report_stage_events in Hev as [->|[->|(r & _ & ->)]].
Qed.





(** ** The report, exactly *)

Lemma filter_filter_symbols (P Q : string -> bool) (l : list string) :
  filter (fun sym => Q sym = true) (filter (fun sym => P sym = true) l)
  = filter (fun sym => P sym && Q sym = true) l.
Proof.
  induction l as [|sym l IH]; [done|].
  rewrite (filter_cons (fun sym => P sym = true)).
  rewrite (filter_cons (fun sym => P sym && Q sym = true)).
  destruct (decide (P sym = true)) as [HP|HP].
  - rewrite filter_cons, IH, HP. cbn [andb].
    by destruct (decide (Q sym = true)).
  - rewrite IH. apply not_true_is_false in HP. rewrite HP. cbn [andb].
    by rewrite decide_False.
Qed.

Lemma candidates_exact e a (results : list enrichment) (syms : list string) :
  results ≡ₚ fetch_float e <$> syms →
  filter_by_float (cutoff a) results
  ≡ₚ fetch_float e <$>
       filter (fun sym => passes (cutoff a) (fetch_float e sym) = true) syms.
Proof.
  intros Hres. rewrite filter_by_float_filter, Hres.
  by rewrite (filter_fetched e (passes (cutoff a))).
Qed.

Lemma eligible_exact e a (filtered : list enrichment) (syms : list string) :
  filtered ≡ₚ fetch_float e <$>
       filter (fun sym => passes (cutoff a) (fetch_float e sym) = true) syms →
  eligible e a filtered
  ≡ₚ fetch_float e <$> filter (fun sym => reported e a sym = true) syms.
Proof.
  intros Hf. unfold eligible, reported. destruct (robinhood a); cbn [negb orb].
  - rewrite Hf.
    rewrite (filter_fetched e (fun r => robinhood_has_symbol e (symbol r))).
    rewrite (list_filter_iff
               (fun sym => robinhood_has_symbol e (symbol (fetch_float e sym)) = true)
               (fun sym => robinhood_has_symbol e sym = true))
      by (intros sym; by rewrite symbol_fetch_float).
    by rewrite filter_filter_symbols.
  - rewrite Hf.
    rewrite (list_filter_iff
               (fun sym => passes (cutoff a) (fetch_float e sym) && true = true)
               (fun sym => passes (cutoff a) (fetch_float e sym) = true));
      [done|].
    intros sym. by rewrite andb_true_r.
Qed.

(** A run that gets its symbols and its pool, whatever else happens. *)
Lemma main_exact e a schedule1 schedule2 symbols :
  download_symbol_list e = Ok symbols →
  1 ≤ workers a →
  ∃ candidates kept,
    candidates ≡ₚ filter (fun sym => passes (cutoff a) (fetch_float e sym) = true)
                    (limited a symbols) ∧
    kept ≡ₚ fetch_float e <$>
              filter (fun sym => reported e a sym = true) (limited a symbols) ∧
    main e a schedule1 schedule2 =
      Prog ((Enrich <$> limited a symbols)
            ++ (if robinhood a then Eligibility <$> candidates else [])
            ++ trace (report_stage e a (sort_by_float kept)))
           (outcome (report_stage e a (sort_by_float kept))).
Proof.
  intros Hd Hw.
  destruct (main_run e a schedule1 schedule2 symbols Hd Hw)
    as (results & kept & Hres & Hkept & Hrun).
  assert (Hcand := candidates_exact e a results (limited a symbols) Hres).
  exists (symbol <$> filter_by_float (cutoff a) results), kept.
  split; [|split; [|done]].
  - rewrite Hcand. by rewrite fetched_symbols.
  - rewrite Hkept. by apply eligible_exact.
Qed.

Lemma report_exact e a schedule1 schedule2 report :
  outcome (main e a schedule1 schedule2) = Ok report →
  ∃ symbols,
    download_symbol_list e = Ok symbols ∧
    report ≡ₚ fetch_float e <$>
                filter (fun sym => reported e a sym = true) (limited a symbols).
Proof.
  intros (symbols & results & kept & Hd & Hw & Hres & Hkept & -> & _)%main_report.
  exists symbols. split; [done|].
  rewrite sort_by_float_Permutation, Hkept.
  apply eligible_exact. by apply candidates_exact.
Qed.

(** X1. With a pool size of zero or less, [main] stops with [ValueError]
    once the symbol lists are in: no symbol is looked up and nothing is
    written. *)
Theorem main_rejects_empty_pool e a schedule1 schedule2 symbols :
  download_symbol_list e = Ok symbols →
  workers a ≤ 0 →
  outcome (main e a schedule1 schedule2) = Raise ValueError
  ∧ trace (main e a schedule1 schedule2) = [].
Proof.
  intros Hd Hw. by rewrite (main_no_workers e a schedule1 schedule2 symbols).
Qed.

Lemma main_rejects_empty_pool_witness :
  outcome (main Demo.world (Scenario.run_with 10000000 true 0 0) [] [])
    = Raise ValueError
  ∧ trace (main Demo.world (Scenario.run_with 10000000 true 0 0) [] []) = [].
Proof.
  apply (main_rejects_empty_pool Demo.world
           (Scenario.run_with 10000000 true 0 0) [] [] ["AAA"; "BBB"; "CCC"]).
  - reflexivity.
  - cbn. lia.
Defined.

(** X2. A run that has its symbols and its pool calls [fetch_float] once
    for each symbol it considers and for no other: all downloaded symbols
    when the limit is zero or negative, else the first [limit] of them in
    sorted order. *)
Theorem enrich_called_once_per_symbol e a schedule1 schedule2 symbols :
  download_symbol_list e = Ok symbols →
  1 ≤ workers a →
  enrich_calls (trace (main e a schedule1 schedule2))
    = (if 0 <? limit a then take (Z.to_nat (limit a)) symbols else symbols)
  ∧ NoDup (enrich_calls (trace (main e a schedule1 schedule2))).
Proof.
  intros Hd Hw.
  destruct (main_exact e a schedule1 schedule2 symbols Hd Hw)
    as (candidates & kept & _ & _ & ->).
  cbn [trace]. rewrite !enrich_calls_app.
  destruct (calls_of_enrich (limited a symbols)) as (-> & _ & _).
  assert (Hrest :
    enrich_calls (if robinhood a then Eligibility <$> candidates else []) = []).
  { destruct (robinhood a); [|done].
    by destruct (calls_of_eligibility candidates) as (-> & _ & _). }
  rewrite Hrest.
  destruct (calls_of_report_stage e a (sort_by_float kept)) as [-> _].
  rewrite !app_nil_r.
  split; [done|]. by eapply limited_NoDup.
Qed.

Lemma enrich_called_once_per_symbol_witness :
  enrich_calls (trace (main Demo.world (Scenario.run_with 10000000 false 8 2)
                         [] []))
    = take 2 ["AAA"; "BBB"; "CCC"]
  ∧ NoDup (enrich_calls
             (trace (main Demo.world (Scenario.run_with 10000000 false 8 2)
                       [] []))).
Proof.
  apply (enrich_called_once_per_symbol Demo.world
           (Scenario.run_with 10000000 false 8 2) [] [] ["AAA"; "BBB"; "CCC"]).
  - reflexivity.
  - cbn. lia.
Defined.

(** X3. When the Robinhood filter is on, [robinhood_has_symbol] is called
    once for each considered symbol whose float is present and within the
    cutoff, and for no other symbol; the calls come in some order of
    those symbols. *)
Theorem eligibility_called_for_candidates e a schedule1 schedule2 symbols :
  download_symbol_list e = Ok symbols →
  1 ≤ workers a →
  robinhood a = true →
  eligibility_calls (trace (main e a schedule1 schedule2))
    ≡ₚ filter (fun sym => passes (cutoff a) (fetch_float e sym) = true)
         (limited a symbols)
  ∧ NoDup (eligibility_calls (trace (main e a schedule1 schedule2))).
Proof.
  intros Hd Hw Hrh.
  destruct (main_exact e a schedule1 schedule2 symbols Hd Hw)
    as (candidates & kept & Hcand & _ & ->).
  cbn [trace]. rewrite Hrh, !eligibility_calls_app.
  destruct (calls_of_enrich (limited a symbols)) as (_ & -> & _).
  destruct (calls_of_eligibility candidates) as (_ & -> & _).
  destruct (calls_of_report_stage e a (sort_by_float kept)) as [_ ->].
  rewrite app_nil_r. cbn [app].
  split; [done|]. rewrite Hcand.
  eapply sublist_NoDup; [by eapply limited_NoDup|apply sublist_filter].
Qed.

Lemma eligibility_called_for_candidates_witness :
  eligibility_calls
    (trace (main Demo.world (Scenario.run_with 10000000 true 8 0) [] []))
    ≡ₚ filter (fun sym => passes 10000000 (fetch_float Demo.world sym) = true)
         ["AAA"; "BBB"; "CCC"]
  ∧ NoDup (eligibility_calls
             (trace (main Demo.world (Scenario.run_with 10000000 true 8 0)
                       [] []))).
Proof.
  apply (eligibility_called_for_candidates Demo.world
           (Scenario.run_with 10000000 true 8 0) [] [] ["AAA"; "BBB"; "CCC"]).
  - reflexivity.
  - cbn. lia.
  - reflexivity.
Defined.

(** ** Rows of the report *)

Lemma NoDup_fmap_inj_on {A B} (f : A -> B) (l : list A) x y :
  NoDup (f <$> l) → x ∈ l → y ∈ l → f x = f y → x = y.
Proof.
  induction l as [|z l IH]; [by intros _ ?%elem_of_nil|].
  rewrite fmap_cons, NoDup_cons, !elem_of_cons.
  intros [Hz Hnd] [->|Hx] [->|Hy] Heq; auto.
  - destruct Hz. rewrite Heq. by apply list_elem_of_fmap_2.
  - destruct Hz. rewrite <- Heq. by apply list_elem_of_fmap_2.
Qed.

Lemma key_le_antisym k1 k2 : key_le k1 k2 → key_le k2 k1 → k1 = k2.
Proof.
  unfold key_le. destruct k1 as [z1|], k2 as [z2|]; simpl; try done.
  rewrite !Z.ltb_ge. intros. f_equal. lia.
Qed.

(** X4. The symbols of the rows of a report are pairwise distinct, and each
    is one of the downloaded symbols. *)
Theorem report_symbols_distinct e a schedule1 schedule2 report :
  outcome (main e a schedule1 schedule2) = Ok report →
  NoDup (symbol <$> report)
  ∧ ∃ symbols, download_symbol_list e = Ok symbols
             ∧ Forall (fun r => symbol r ∈ symbols) report.
Proof.
  intros (symbols & Hd & Hrep)%report_exact.
  assert (Hsyms : symbol <$> report
                  ≡ₚ filter (fun sym => reported e a sym = true)
                       (limited a symbols))
    by (by rewrite Hrep, fetched_symbols).
  split.
  - rewrite Hsyms.
    eapply sublist_NoDup; [by eapply limited_NoDup|apply sublist_filter].
  - exists symbols. split; [done|]. apply Forall_forall. intros r Hr.
    apply (limited_subseteq a).
    assert (Hin : symbol r ∈ symbol <$> report) by (by apply list_elem_of_fmap_2).
    rewrite Hsyms in Hin. by apply list_elem_of_filter in Hin as [_ ?].
Qed.

Lemma report_symbols_distinct_witness :
  NoDup (symbol <$> [Demo.aaa; Demo.bbb])
  ∧ ∃ symbols, download_symbol_list Demo.world = Ok symbols
             ∧ Forall (fun r => symbol r ∈ symbols) [Demo.aaa; Demo.bbb].
Proof.
  apply (report_symbols_distinct Demo.world
           (Scenario.run_with 60000000 false 8 0) [] []).
  reflexivity.
Defined.

(** X5. A report holds exactly the records that [fetch_float] gives for the
    considered symbols whose float is present and within the cutoff and,
    with the Robinhood filter on, whose check says yes: none is missing and
    none is added. *)
Theorem report_rows_exactly e a schedule1 schedule2 report :
  outcome (main e a schedule1 schedule2) = Ok report →
  ∃ symbols,
    download_symbol_list e = Ok symbols
    ∧ ∀ r, r ∈ report ↔
           ∃ sym, sym ∈ limited a symbols
                ∧ r = fetch_float e sym
                ∧ within_cutoff (cutoff a) r
                ∧ (robinhood a = true → robinhood_has_symbol e sym = true).
Proof.
  intros (symbols & Hd & Hrep)%report_exact.
  exists symbols. split; [done|]. intros r. rewrite Hrep.
  rewrite list_elem_of_fmap. setoid_rewrite list_elem_of_filter.
  unfold reported, within_cutoff, passes. split.
  - intros (sym & -> & Hrp & Hin). exists sym.
    apply andb_true_iff in Hrp as [Hp Hrh].
    split; [done|]. split; [done|]. split.
    + destruct (float (fetch_float e sym)) as [fval|]; [|done].
      exists fval. split; [done|]. by apply Z.leb_le.
    + intros Hon. rewrite Hon in Hrh. done.
  - intros (sym & Hin & -> & (fval & Hf & Hle) & Hrh). exists sym.
    split; [done|]. split; [|done].
    rewrite Hf. apply andb_true_iff. split; [by apply Z.leb_le|].
    destruct (robinhood a); [by apply Hrh|done].
Qed.

Lemma report_rows_exactly_witness :
  ∃ symbols,
    download_symbol_list Demo.world = Ok symbols
    ∧ ∀ r, r ∈ [Demo.bbb] ↔
           ∃ sym, sym ∈ limited (Scenario.run_with 60000000 true 8 0) symbols
                ∧ r = fetch_float Demo.world sym
                ∧ within_cutoff 60000000 r
                ∧ (true = true → robinhood_has_symbol Demo.world sym = true).
Proof.
  apply (report_rows_exactly Demo.world
           (Scenario.run_with 60000000 true 8 0) [] []).
  reflexivity.
Defined.

(** X6. The order in which the futures complete does not change which rows
    a report has; it can only change the order of rows that share a sort
    key. Two runs in the same world with the same arguments report the same
    rows up to order, and the same list when no two rows share a key. *)
Theorem report_independent_of_schedule e a schedule1 schedule2
  schedule1' schedule2' report report' :
  outcome (main e a schedule1 schedule2) = Ok report →
  outcome (main e a schedule1' schedule2') = Ok report' →
  report ≡ₚ report' ∧ (NoDup (key <$> report) → report = report').
Proof.
  intros Hrun Hrun'.
  assert (Hperm : report ≡ₚ report').
  { destruct (report_exact _ _ _ _ _ Hrun) as (symbols & Hd & ->).
    destruct (report_exact _ _ _ _ _ Hrun') as (symbols' & Hd' & ->).
    rewrite Hd in Hd'. by injection Hd' as <-. }
  split; [done|]. intros Hkeys.
  apply main_report in Hrun as (_ & _ & kept & _ & _ & _ & _ & Hsort & _).
  apply main_report in Hrun' as (_ & _ & kept' & _ & _ & _ & _ & Hsort' & _).
  apply (StronglySorted_unique_strong
           (fun r1 r2 => key_le (key r1) (key r2))); [| | |done].
  - intros r1 r2 Hr1 Hr2 H12 H21.
    apply (NoDup_fmap_inj_on key report); [done|done| |].
    + by rewrite Hperm.
    + by apply key_le_antisym.
  - rewrite Hsort. apply sort_by_float_sorted.
  - rewrite Hsort'. apply sort_by_float_sorted.
Qed.

Lemma report_independent_of_schedule_witness :
  [Demo.aaa; Demo.bbb] ≡ₚ [Demo.aaa; Demo.bbb]
  ∧ (NoDup (key <$> [Demo.aaa; Demo.bbb])
     → [Demo.aaa; Demo.bbb] = [Demo.aaa; Demo.bbb]).
Proof.
  apply (report_independent_of_schedule Demo.world
           (Scenario.run_with 60000000 false 2 0)
           [] [] [1; 0; 0]%nat [5]%nat); reflexivity.
Defined.

(** X7. A report is in the order of the sort keys, and it ascends by float
    whenever none of its rows has the float 0. *)
Theorem report_sorted_by_key e a schedule1 schedule2 report :
  outcome (main e a schedule1 schedule2) = Ok report →
  StronglySorted (fun r1 r2 => key_le (key r1) (key r2)) report
  ∧ (Forall (fun r => float r ≠ Some 0) report → ascending_by_float report).
Proof.
  intros Hrun.
  assert (Hrows : Forall (within_cutoff (cutoff a)) report).
  { apply Forall_forall. intros r Hr.
    by destruct (report_row _ _ _ _ _ _ Hrun Hr) as (_ & ? & _). }
  apply main_report in Hrun as (_ & _ & kept & _ & _ & _ & _ & -> & _).
  split; [apply sort_by_float_sorted|].
  intros Hnz. apply sort_by_float_ascending.
  rewrite sort_by_float_Permutation in Hrows, Hnz.
  rewrite Forall_forall in Hrows, Hnz |- *. intros r Hr.
  destruct (Hrows r Hr) as (fval & Hf & _). exists fval. split; [done|].
  intros ->. by apply (Hnz r Hr).
Qed.

Lemma report_sorted_by_key_witness :
  StronglySorted (fun r1 r2 => key_le (key r1) (key r2)) [Demo.aaa; Demo.bbb]
  ∧ (Forall (fun r => float r ≠ Some 0) [Demo.aaa; Demo.bbb]
     → ascending_by_float [Demo.aaa; Demo.bbb]).
Proof.
  apply (report_sorted_by_key Demo.world
           (Scenario.run_with 60000000 false 8 0) [] []).
  reflexivity.
Defined.



(** ** Edge cases of the lookups *)

Lemma head_filter_Some {A} (P : A -> bool) (l : list A) v :
  head (filter (fun x => P x = true) l) = Some v → P v = true ∧ v ∈ l.
Proof.
  induction l as [|x l IH]; [done|].
  rewrite filter_cons. destruct (decide (P x = true)) as [HP|HP].
  - intros [= <-]. split; [done|]. apply list_elem_of_here.
  - intros [Hv Hin]%IH. split; [done|]. by apply list_elem_of_further.
Qed.

Lemma int_of_accepted v z :
  accepted_number v = true → int v = Ok z →
  0 ≤ z ∧ (z = 0 → ∃ f, v = PyFloat f).
Proof.
  unfold accepted_number.
  destruct v as [|b|n|f| | |]; cbn [is_int_or_float andb gt_zero int]; try done.
  - intros -> [= <-]. split; [lia|done].
  - intros Hn%Z.ltb_lt [= <-]. split; lia.
  - intros Hgt Hint. split; [|by eexists].
    destruct f as [s|s| |s m ex]; cbn [int_of_float] in Hint; try done.
    destruct s; [done|]. injection Hint as <-.
    destruct (0 <=? ex) eqn:Hex.
    + apply Z.leb_le in Hex. apply Z.mul_nonneg_nonneg; [lia|].
      by apply Z.pow_nonneg.
    + apply Z.leb_gt in Hex. apply Z.div_pos; [lia|].
      apply Z.pow_pos_nonneg; lia.
Qed.

Lemma scan_strings_positive e info keys z :
  scan_strings e info keys = Some z → 0 < z.
Proof.
  induction keys as [|k keys IH]; [done|]. cbn [scan_strings].
  destruct (get info k) as [| | | |s| |]; try exact IH.
  destruct (f ← float_of_str e (remove_char "," s); int_of_float f)
    as [fv|]; [|exact IH].
  destruct (0 <? fv) eqn:Hpos; [|exact IH].
  intros [= <-]. by apply Z.ltb_lt.
Qed.

Lemma extract_float_first_number e info v :
  spec_first_number info numeric_keys = Some v →
  extract_float e info = (float_shares ← int v; Ok (Some float_shares)).
Proof.
  intros Hv. unfold extract_float. rewrite scan_numeric_first, Hv.
  by destruct (int v).
Qed.

Lemma extract_float_no_number e info :
  spec_first_number info numeric_keys = None →
  extract_float e info = Ok (scan_strings e info string_keys).
Proof.
  intros Hv. unfold extract_float. by rewrite scan_numeric_first, Hv.
Qed.

Lemma extract_float_nonneg e info z :
  extract_float e info = Ok (Some z) →
  0 ≤ z ∧ (z = 0 → ∃ f, spec_first_number info numeric_keys = Some (PyFloat f)).
Proof.
  destruct (spec_first_number info numeric_keys) as [v|] eqn:Hv.
  - rewrite (extract_float_first_number e info v Hv).
    destruct (int v) as [z'|] eqn:Hint; [|done].
    rewrite bind_Ok. intros [= <-].
    apply head_filter_Some in Hv as [Hacc _].
    destruct (int_of_accepted v z' Hacc Hint) as [Hz Hzero].
    split; [done|]. intros H0. destruct (Hzero H0) as [f ->]. by exists f.
  - rewrite (extract_float_no_number e info Hv). intros Hs.
    assert (Hpos : 0 < z).
    { apply (scan_strings_positive e info string_keys). congruence. }
    split; lia.
Qed.

Lemma get_empty k : get ∅ k = PyNone.
Proof. unfold get. by rewrite lookup_empty. Qed.

Lemma extract_float_empty e : extract_float e ∅ = Ok None.
Proof.
  unfold extract_float, numeric_keys, string_keys.
  cbn [scan_numeric scan_strings]. by rewrite !get_empty.
Qed.

Lemma fetch_float_empty_info e sym t_info :
  yf_info e sym = Ok t_info → truthy t_info = false →
  fetch_float e sym = no_data sym.
Proof.
  intros Hinfo Hfalsy. unfold fetch_float, fetch_float_try.
  rewrite Hinfo, bind_Ok, Hfalsy. cbn [as_dict]. rewrite bind_Ok.
  rewrite extract_float_empty, bind_Ok. cbn [try_except].
  by rewrite !get_empty.
Qed.

(** A float that is present was extracted from a dict of yfinance. *)
Lemma fetch_float_extracted e sym fval :
  float (fetch_float e sym) = Some fval →
  ∃ info, yf_info e sym = Ok (PyDict info)
        ∧ extract_float e info = Ok (Some fval).
Proof.
  destruct (yf_info e sym) as [t_info|x] eqn:Hinfo.
  2: { unfold fetch_float, fetch_float_try. by rewrite Hinfo. }
  destruct (truthy t_info) eqn:Htruthy.
  2: { by rewrite (fetch_float_empty_info e sym t_info Hinfo Htruthy). }
  unfold fetch_float, fetch_float_try. rewrite Hinfo, bind_Ok, Htruthy.
  destruct t_info as [| | | | | |info]; try done. cbn [as_dict].
  rewrite bind_Ok.
  destruct (extract_float e info) as [float_shares|] eqn:Hext; [|done].
  rewrite bind_Ok. cbn [try_except float]. intros ->. by exists info.
Qed.

(** X9. The float of a record of [fetch_float] is never negative, and it is
    0 only when the value that the first loop accepted is of type
    [float]: an [int], a [bool] or a parsed string gives a positive
    count. *)
Theorem fetch_float_never_negative e sym fval :
  float (fetch_float e sym) = Some fval →
  0 ≤ fval
  ∧ (fval = 0 →
     ∃ info f, yf_info e sym = Ok (PyDict info)
             ∧ spec_first_number info numeric_keys = Some (PyFloat f)).
Proof.
  intros (info & Hinfo & Hext)%fetch_float_extracted.
  destruct (extract_float_nonneg e info fval Hext) as [Hz Hzero].
  split; [done|]. intros H0. destruct (Hzero H0) as [f Hf]. by exists info, f.
Qed.

Lemma fetch_float_never_negative_witness :
  0 ≤ 0
  ∧ (0 = 0 →
     ∃ info f, yf_info Demo.penny_world "AAA" = Ok (PyDict info)
             ∧ spec_first_number info numeric_keys = Some (PyFloat f)).
Proof.
  apply (fetch_float_never_negative Demo.penny_world "AAA" 0).
  reflexivity.
Defined.

(** X10. When yfinance hands back something that is not a dict with
    entries ([None], an empty dict, or a value of another type),
    [fetch_float] returns the record with no data. *)
Theorem fetch_float_without_info e sym t_info :
  yf_info e sym = Ok t_info →
  truthy t_info = false ∨ (∀ info, t_info ≠ PyDict info) →
  fetch_float e sym = no_data sym.
Proof.
  intros Hinfo Hbad.
  destruct (truthy t_info) eqn:Htruthy.
  2: { by apply (fetch_float_empty_info e sym t_info). }
  destruct Hbad as [|Hno]; [done|].
  unfold fetch_float, fetch_float_try. rewrite Hinfo, bind_Ok, Htruthy.
  destruct t_info as [| | | | | |info]; try done.
  by destruct (Hno info).
Qed.

Lemma fetch_float_without_info_witness :
  fetch_float
    {| http_get := Demo.get_of;
       yf_info := fun _ => Ok (PyList [PyInt 7]);
       float_of_str := Demo.no_float;
       file_open := fun _ => Ok tt;
       file_writerow := fun _ _ => Ok tt;
       print_row := fun _ _ _ _ => Ok tt |} "AAA"
  = no_data "AAA".
Proof.
  apply (fetch_float_without_info _ "AAA" (PyList [PyInt 7])).
  - reflexivity.
  - right. intros info. discriminate.
Defined.

(** X11. When the value that the first loop accepts is the float infinity,
    [int] raises and [fetch_float] returns the record with no data: the
    name, exchange and market capitalisation of the answer are lost with the
    share count. *)
Theorem fetch_float_infinite_count e sym info :
  yf_info e sym = Ok (PyDict info) →
  spec_first_number info numeric_keys = Some (PyFloat (S754_infinity false)) →
  fetch_float e sym = no_data sym.
Proof.
  intros Hinfo Hfirst.
  assert (Hne : truthy (PyDict info) = true).
  { cbn [truthy]. rewrite bool_decide_eq_false_2; [done|]. intros ->.
    apply head_filter_Some in Hfirst as [_ Hin].
    apply list_elem_of_fmap in Hin as (k & Hk & _).
    by rewrite get_empty in Hk. }
  unfold fetch_float, fetch_float_try.
  rewrite Hinfo, bind_Ok, Hne. cbn [as_dict]. rewrite bind_Ok.
  by rewrite (extract_float_first_number e info _ Hfirst).
Qed.

Lemma fetch_float_infinite_count_witness :
  fetch_float
    {| http_get := Demo.get_of;
       yf_info := fun _ =>
         Ok (PyDict (<["sharesFloat" := PyFloat (S754_infinity false)]>
                       (<["shortName" := PyStr "Alpha Inc"]> ∅)));
       float_of_str := Demo.no_float;
       file_open := fun _ => Ok tt;
       file_writerow := fun _ _ => Ok tt;
       print_row := fun _ _ _ _ => Ok tt |} "AAA"
  = no_data "AAA".
Proof.
  apply (fetch_float_infinite_count _ "AAA"
           (<["sharesFloat" := PyFloat (S754_infinity false)]>
              (<["shortName" := PyStr "Alpha Inc"]> ∅))).
  - reflexivity.
  - reflexivity.
Defined.

(** ** Runs at the edges *)



(** X12. With a cutoff below zero the report is empty, whatever yfinance
    answers. *)
Theorem negative_cutoff_reports_nothing e a schedule1 schedule2 report :
  cutoff a < 0 →
  outcome (main e a schedule1 schedule2) = Ok report →
  report = [].
Proof.
  intros Hneg Hrun. destruct report as [|r report]; [done|].
  destruct (report_row e a schedule1 schedule2 (r :: report) r Hrun)
    as (Hfetch & (fval & Hf & Hle) & _); [apply list_elem_of_here|].
  rewrite Hfetch in Hf.
  apply fetch_float_extracted in Hf as (info & _ & Hext).
  destruct (extract_float_nonneg e info fval Hext) as [Hnn _]. lia.
Qed.

Lemma negative_cutoff_reports_nothing_witness :
  outcome (main Demo.world (Scenario.run_with (-1) false 8 0) [] []) = Ok []
  ∧ @nil enrichment = [].
Proof.
  split; [reflexivity|].
  apply (negative_cutoff_reports_nothing Demo.world
           (Scenario.run_with (-1) false 8 0) [] [] []).
  - cbn. lia.
  - reflexivity.
Defined.





(** X15. Loosening the arguments only adds rows: with a cutoff at least as
    high, the Robinhood filter on only if it was on, and a limit that is
    off or at least as large, every row of the first report is in the
    second. *)
Theorem report_grows_with_arguments e a a' schedule1 schedule2
  schedule1' schedule2' report report' :
  outcome (main e a schedule1 schedule2) = Ok report →
  outcome (main e a' schedule1' schedule2') = Ok report' →
  cutoff a ≤ cutoff a' →
  (robinhood a' = true → robinhood a = true) →
  limit a' ≤ 0 ∨ 0 < limit a ≤ limit a' →
  report ⊆ report'.
Proof.
  intros Hrun Hrun' Hcut Hrh Hlim.
  destruct (report_exact _ _ _ _ _ Hrun) as (symbols & Hd & Hrep).
  destruct (report_exact _ _ _ _ _ Hrun') as (symbols' & Hd' & Hrep').
  rewrite Hd in Hd'. injection Hd' as <-.
  intros r. rewrite Hrep, Hrep', !list_elem_of_fmap.
  intros (sym & -> & [Hr Hin]%list_elem_of_filter). exists sym.
  split; [done|]. apply list_elem_of_filter. split.
  - unfold reported, passes in *. apply andb_true_iff in Hr as [Hp Hc].
    apply andb_true_iff. split.
    + destruct (float (fetch_float e sym)) as [fval|]; [|done].
      apply Z.leb_le in Hp. apply Z.leb_le. lia.
    + destruct (robinhood a'); [|done]. by rewrite Hrh in Hc.
  - unfold limited in *. destruct Hlim as [Hoff|[Hpos Hle]].
    + destruct (Z.ltb_spec 0 (limit a')); [lia|].
      destruct (0 <? limit a); [by eapply subseteq_take|done].
    + destruct (Z.ltb_spec 0 (limit a)); [|lia].
      destruct (Z.ltb_spec 0 (limit a')); [|lia].
      replace (Z.to_nat (limit a))
        with (Nat.min (Z.to_nat (limit a)) (Z.to_nat (limit a'))) in Hin by lia.
      rewrite <- take_take in Hin. by eapply subseteq_take.
Qed.

Lemma report_grows_with_arguments_witness :
  [Demo.aaa] ⊆ [Demo.aaa; Demo.bbb].
Proof.
  apply (report_grows_with_arguments Demo.world
           (Scenario.run_with 10000000 false 8 2)
           (Scenario.run_with 60000000 false 8 0) [] [] [] []).
  - reflexivity.
  - reflexivity.
  - cbn. lia.
  - discriminate.
  - left. cbn. lia.
Defined.

(** ** The tickers that come out of the symbol source *)

Lemma chars_rev_app s1 s2 :
  chars (String.rev_app s1 s2) = reverse (chars s1) ++ chars s2.
Proof.
  revert s2. induction s1 as [|c s1 IH]; intros s2; [done|].
  cbn [String.rev_app]. rewrite IH. cbn [chars list_ascii_of_string].
  by rewrite reverse_cons, <- app_assoc.
Qed.

Lemma chars_rev s : chars (String.rev s) = reverse (chars s).
Proof. unfold String.rev. by rewrite chars_rev_app, app_nil_r. Qed.

Lemma chars_inj s1 s2 : chars s1 = chars s2 → s1 = s2.
Proof.
  intros Heq. rewrite <- (string_of_list_ascii_of_string s1).
  rewrite <- (string_of_list_ascii_of_string s2). unfold chars in Heq.
  by rewrite Heq.
Qed.

Lemma lstrip_suffix s : chars (lstrip s) `suffix_of` chars s.
Proof.
  induction s as [|c s IH]; [done|]. cbn [lstrip].
  destruct (isspace c); [|done].
  by apply suffix_cons_r.
Qed.

Lemma lstrip_head s c : head (chars (lstrip s)) = Some c → isspace c = false.
Proof.
  induction s as [|c' s IH]; [done|]. cbn [lstrip].
  destruct (isspace c') eqn:Hsp; [done|].
  cbn. by intros [= <-].
Qed.

Lemma strip_infix s :
  ∃ k1 k2, chars s = k1 ++ chars (strip s) ++ k2.
Proof.
  unfold strip. rewrite chars_rev.
  destruct (lstrip_suffix s) as [k1 Hk1].
  destruct (lstrip_suffix (String.rev (lstrip s))) as [k2 Hk2].
  rewrite chars_rev in Hk2.
  exists k1, (reverse k2). rewrite Hk1. f_equal.
  rewrite <- reverse_app, <- Hk2. by rewrite reverse_involutive.
Qed.

Lemma strip_last s c : last (chars (strip s)) = Some c → isspace c = false.
Proof.
  unfold strip. rewrite chars_rev, last_reverse. apply lstrip_head.
Qed.

Lemma strip_head s c : head (chars (strip s)) = Some c → isspace c = false.
Proof.
  unfold strip. rewrite chars_rev, head_reverse.
  destruct (lstrip_suffix (String.rev (lstrip s))) as [k Hk].
  rewrite chars_rev in Hk. intros Hlast.
  apply (lstrip_head s).
  rewrite <- last_reverse, Hk, last_app, Hlast. done.
Qed.

Lemma chars_cons c s : chars (String c s) = c :: chars s.
Proof. reflexivity. Qed.

Lemma split_first sep s :
  ∃ k, chars s = chars (hd "" (split sep s)) ++ k
     ∧ Forall (fun c => Ascii.eqb c sep = false) (chars (hd "" (split sep s))).
Proof.
  induction s as [|c s (k & Hk & Hall)].
  - exists []. by split.
  - cbn [split]. destruct (Ascii.eqb c sep) eqn:Hc.
    + exists (c :: chars s). by split.
    + destruct (split sep s) as [|h t]; cbn [hd] in *.
      * exists (chars s). split; [done|]. by constructor.
      * exists k. rewrite !chars_cons. split; [by rewrite Hk|].
        by constructor.
Qed.

(** The lines of [splitlines] hold no line boundary. *)
Lemma splitlines_from_plain n : ∀ cur s line,
  (String.length s ≤ n)%nat →
  Forall (fun c => is_linebreak c = false ∧ is_cr c = false) (chars cur) →
  line ∈ splitlines_from cur s →
  Forall (fun c => is_linebreak c = false ∧ is_cr c = false) (chars line).
Proof.
  assert (Hrev : ∀ cur,
    Forall (fun c => is_linebreak c = false ∧ is_cr c = false) (chars cur) →
    Forall (fun c => is_linebreak c = false ∧ is_cr c = false)
      (chars (String.rev cur))).
  { intros cur' H. rewrite chars_rev. by apply Forall_reverse. }
  induction n as [|n IH]; intros cur s line Hlen Hcur.
  - destruct s; [|cbn in Hlen; lia]. cbn [splitlines_from].
    destruct cur; [by intros ?%elem_of_nil|].
    intros ->%list_elem_of_singleton. by apply Hrev.
  - destruct s as [|c s].
    { cbn [splitlines_from]. destruct cur; [by intros ?%elem_of_nil|].
      intros ->%list_elem_of_singleton. by apply Hrev. }
    cbn [String.length] in Hlen. cbn [splitlines_from].
    destruct (is_cr c) eqn:Hcr.
    + destruct s as [|c' s'].
      * intros ->%list_elem_of_singleton. by apply Hrev.
      * cbn [String.length] in Hlen.
        destruct (is_lf c') eqn:Hlf.
        -- intros [->|Hin]%elem_of_cons; [by apply Hrev|].
           apply (IH EmptyString s'); [lia|constructor|done].
        -- intros [->|Hin]%elem_of_cons; [by apply Hrev|].
           apply (IH EmptyString (String c' s')); [cbn; lia|constructor|done].
    + destruct (is_linebreak c) eqn:Hlb.
      * intros [->|Hin]%elem_of_cons; [by apply Hrev|].
        apply (IH EmptyString s); [lia|constructor|done].
      * intros Hin. apply (IH (String c cur) s); [lia| |done].
        rewrite chars_cons. by constructor.
Qed.

Lemma splitlines_plain body line :
  line ∈ splitlines body →
  Forall (fun c => is_linebreak c = false ∧ is_cr c = false) (chars line).
Proof.
  apply (splitlines_from_plain (String.length body) EmptyString body);
    [done|constructor].
Qed.

Lemma take_until_subseteq stop (lines : list string) :
  take_until stop lines ⊆ lines.
Proof.
  induction lines as [|line lines IH]; [done|]. cbn [take_until].
  destruct (stop line); [apply list_subseteq_nil|].
  intros x [->|Hx]%elem_of_cons; [apply list_elem_of_here|].
  by apply list_elem_of_further, IH.
Qed.

Lemma spec_candidate_clean body line :
  line ∈ splitlines body →
  spec_candidate line ≠ "" →
  spec_candidate line ≠ "Symbol" →
  clean_ticker (spec_candidate line).
Proof.
  intros Hline Hne Hsym. unfold clean_ticker.
  split; [done|]. split; [done|].
  split; [|split; [apply strip_head|apply strip_last]].
  unfold spec_candidate.
  destruct (strip_infix (hd "" (split "|" line))) as (k1 & k2 & Hstrip).
  destruct (split_first "|" line) as (k & Hk & Hpipe).
  assert (Hplain := splitlines_plain body line Hline).
  rewrite Hk, Forall_app in Hplain. destruct Hplain as [Hplain _].
  rewrite Hstrip in Hplain, Hpipe.
  rewrite !Forall_app in Hplain, Hpipe.
  destruct Hplain as (_ & Hplain & _). destruct Hpipe as (_ & Hpipe & _).
  rewrite Forall_forall in Hplain, Hpipe |- *.
  intros c Hc. destruct (Hplain c Hc). split; [|done]. by apply Hpipe.
Qed.

Lemma spec_tickers_clean body sym : sym ∈ spec_tickers body → clean_ticker sym.
Proof.
  unfold spec_tickers.
  intros [[Hne Hsym] (line & -> & Hline)%list_elem_of_fmap]%list_elem_of_filter.
  apply (spec_candidate_clean body); [|done|done].
  apply take_until_subseteq in Hline.
  destruct (splitlines body) as [|first rest]; [by apply elem_of_nil in Hline|].
  by apply list_elem_of_further.
Qed.

Lemma download_members e symbols sym :
  download_symbol_list e = Ok symbols → sym ∈ symbols →
  ∃ body, sym ∈ spec_tickers body.
Proof.
  unfold download_symbol_list, download_from.
  destruct (http_get e NASDAQ_LISTED_URL) as [r1|]; [|done]. rewrite bind_Ok.
  destruct (raise_for_status r1); [|done]. rewrite bind_Ok.
  destruct (http_get e OTHER_LISTED_URL) as [r2|]; [|done]. rewrite bind_Ok.
  destruct (raise_for_status r2); [|done]. rewrite !bind_Ok.
  intros [= <-].
  match goal with |- _ ∈ sorted ?set → _ =>
    destruct (sorted_spec set) as (_ & _ & Hmem) end.
  rewrite Hmem, !scan_lines_spec, !elem_of_union, !elem_of_list_to_set.
  intros [Hin|[Hin|Hin]].
  - by exists (text r2).
  - by exists (text r1).
  - by apply elem_of_empty in Hin.
Qed.

(** X16. Every ticker that [download_symbol_list] returns is clean: it is
    neither empty nor the header echo, it holds no pipe and no line
    boundary, and it neither begins nor ends with whitespace. *)
Theorem downloaded_tickers_clean e symbols :
  download_symbol_list e = Ok symbols →
  Forall clean_ticker symbols.
Proof.
  intros Hd. apply Forall_forall. intros sym Hsym.
  destruct (download_members e symbols sym Hd Hsym) as [body Hbody].
  by apply (spec_tickers_clean body).
Qed.

Lemma downloaded_tickers_clean_witness :
  Forall clean_ticker ["AAA"; "BBB"; "CCC"].
Proof.
  apply (downloaded_tickers_clean Demo.world). reflexivity.
Defined.

(** ** Further facts on the stages *)

(** X17. The sort neither loses nor adds a row, and it is stable: the rows
    of any one float keep the order they had. *)
Theorem sort_by_float_stable_permutation (l : list enrichment) :
  sort_by_float l ≡ₚ l
  ∧ ∀ f, filter (fun r => has_float f r = true) (sort_by_float l)
         = filter (fun r => has_float f r = true) l.
Proof.
  split; [apply sort_by_float_Permutation|].
  intros f. apply sort_by_float_stable. intros x y Hx Hy.
  unfold has_float in *. apply bool_decide_eq_true in Hx, Hy.
  unfold key. by rewrite Hx, Hy.
Qed.

(** X18. With a positive limit a report has at most that many rows. *)
Theorem report_length_within_limit e a schedule1 schedule2 report :
  0 < limit a →
  outcome (main e a schedule1 schedule2) = Ok report →
  (length report ≤ Z.to_nat (limit a))%nat.
Proof.
  intros Hlim (symbols & _ & ->)%report_exact.
  rewrite length_fmap.
  etransitivity; [apply length_filter|].
  unfold limited. destruct (Z.ltb_spec 0 (limit a)); [|lia].
  rewrite length_take. lia.
Qed.

Lemma report_length_within_limit_witness :
  outcome (main Demo.world (Scenario.run_with 60000000 false 8 1) [] [])
    = Ok [Demo.aaa]
  ∧ (length [Demo.aaa] ≤ Z.to_nat 1)%nat.
Proof.
  split; [reflexivity|].
  apply (report_length_within_limit Demo.world
           (Scenario.run_with 60000000 false 8 1) [] []).
  - cbn. lia.
  - reflexivity.
Defined.

Lemma download_set e symbols :
  download_symbol_list e = Ok symbols →
  ∃ r1 r2,
    http_get e NASDAQ_LISTED_URL = Ok r1
    ∧ http_get e OTHER_LISTED_URL = Ok r2
    ∧ symbols = sorted (list_to_set (spec_tickers (text r1))
                        ∪ list_to_set (spec_tickers (text r2))).
Proof.
  unfold download_symbol_list, download_from.
  destruct (http_get e NASDAQ_LISTED_URL) as [r1|]; [|done]. rewrite bind_Ok.
  destruct (raise_for_status r1); [|done]. rewrite bind_Ok.
  destruct (http_get e OTHER_LISTED_URL) as [r2|]; [|done]. rewrite bind_Ok.
  destruct (raise_for_status r2); [|done]. rewrite !bind_Ok.
  intros [= <-]. exists r1, r2. split; [done|]. split; [done|].
  f_equal. rewrite !scan_lines_spec. unfold spec_tickers. set_solver.
Qed.

(** X19. Which directory lists a ticker does not matter: two worlds that
    serve the same two answers, each under the other's address, give the
    same symbol list. *)
Theorem download_symbol_list_feed_order e e' symbols symbols' :
  http_get e NASDAQ_LISTED_URL = http_get e' OTHER_LISTED_URL →
  http_get e OTHER_LISTED_URL = http_get e' NASDAQ_LISTED_URL →
  download_symbol_list e = Ok symbols →
  download_symbol_list e' = Ok symbols' →
  symbols = symbols'.
Proof.
  intros H1 H2 (r1 & r2 & Hr1 & Hr2 & ->)%download_set
    (r1' & r2' & Hr1' & Hr2' & ->)%download_set.
  rewrite Hr1, Hr2' in H1. rewrite Hr2, Hr1' in H2.
  injection H1 as <-. injection H2 as <-.
  f_equal. set_solver.
Qed.

Lemma download_symbol_list_feed_order_witness :
  ["AAA"; "BBB"; "CCC"] = ["AAA"; "BBB"; "CCC"].
Proof.
  apply (download_symbol_list_feed_order Demo.world
           {| http_get := fun url =>
                if String.eqb url NASDAQ_LISTED_URL
                then Ok (Demo.page Demo.other_txt)
                else Ok (Demo.page Demo.nasdaq_txt);
              yf_info := Demo.info_of;
              float_of_str := Demo.no_float;
              file_open := fun _ => Ok tt;
              file_writerow := fun _ _ => Ok tt;
              print_row := fun _ _ _ _ => Ok tt |}); reflexivity.
Defined.

(** X20. A [bool] counts as a number: when the answer holds [True] under
    ["floatShares"], [fetch_float] reports a float of 1. *)
Theorem fetch_float_counts_true_as_one e sym info :
  yf_info e sym = Ok (PyDict info) →
  info !! "floatShares" = Some (PyBool true) →
  float (fetch_float e sym) = Some 1.
Proof.
  intros Hinfo Htrue.
  assert (Hne : truthy (PyDict info) = true).
  { cbn [truthy]. rewrite bool_decide_eq_false_2; [done|]. intros ->.
    by rewrite lookup_empty in Htrue. }
  unfold fetch_float, fetch_float_try.
  rewrite Hinfo, bind_Ok, Hne. cbn [as_dict]. rewrite bind_Ok.
  assert (Hget : get info "floatShares" = PyBool true)
    by (unfold get; by rewrite Htrue).
  rewrite (extract_float_first_number e info (PyBool true)); [done|].
  unfold spec_first_number, numeric_keys.
  by rewrite fmap_cons, filter_cons, Hget, decide_True.
Qed.

Lemma fetch_float_counts_true_as_one_witness :
  float (fetch_float
           {| http_get := Demo.get_of;
              yf_info := fun _ => Ok (PyDict (<["floatShares" := PyBool true]> ∅));
              float_of_str := Demo.no_float;
              file_open := fun _ => Ok tt;
              file_writerow := fun _ _ => Ok tt;
              print_row := fun _ _ _ _ => Ok tt |} "AAA")
  = Some 1.
Proof.
  apply (fetch_float_counts_true_as_one _ "AAA"
           (<["floatShares" := PyBool true]> ∅)); reflexivity.
Defined.

